(** * Brigade: composing and calling asynchronous middleware

    A shallow embedding of [src/index.js] of the middleware-brigade package
    ([locatedError], [callMiddleware], [compose] with its inner functions
    [composedMiddleware], [dispatchToMiddleware], [dispatchNext] and
    [dispatchTerminate]) together with the small part of the JavaScript
    run time the dispatcher relies on: values and [typeof], promises with
    their reactions, and the job (microtask) queue.

    Middleware and continue functions are inputs of the dispatcher. They
    are represented by programs over the operations a middleware can perform
    (call a continue function, push a mark on the request, create a promise,
    await), so that statements quantify over everything a middleware may do,
    including throwing, returning something that is not a promise and
    calling its continue functions several times.

    Limits of the model: a state follows one invocation of one composed
    brigade (one [hasTerminated]); the only objects with a callable [then]
    are native promises; a promise resolved with another promise follows it
    through one job, so that the order of jobs is kept but not their exact
    number; an error object carries no reference, so that two error objects
    of the same kind and message are not told apart, and what is stated of
    [===] on objects is stated for the objects that carry one. *)

From Stdlib Require Import ZArith Lia.
From stdpp Require Import base decidable list strings pretty.

Local Open Scope string_scope.
Local Open Scope list_scope.
Local Open Scope Z_scope.

(** ** JavaScript values *)

Inductive error_kind := Error | TypeError.

(** Objects are references. A [VObject] is a plain object without a [then]
    method, a [VPromise] is a native promise (the only objects with a callable
    [then] in this model), a [VError] is an error object, which has its kind
    and its message and no reference. *)
Inductive value :=
| VUndefined
| VNull
| VBoolean (b : bool)
| VNumber (n : Z)
| VString (s : string)
| VFunction (name : string)
| VObject (ref : nat)
| VError (kind : error_kind) (message : string)
| VPromise (ref : nat).

#[global] Instance error_kind_eq_dec : EqDecision error_kind.
Proof. solve_decision. Defined.

#[global] Instance value_eq_dec : EqDecision value.
Proof. solve_decision. Defined.

(** [typeof v] *)
Definition typeOf (v : value) : string :=
  match v with
  | VUndefined => "undefined"
  | VNull => "object"
  | VBoolean _ => "boolean"
  | VNumber _ => "number"
  | VString _ => "string"
  | VFunction _ => "function"
  | VObject _ => "object"
  | VError _ _ => "object"
  | VPromise _ => "object"
  end.

(** [typeof v.then === 'function'], for a [v] that is a non-null object. *)
Definition hasCallableThen (v : value) : bool :=
  match v with
  | VPromise _ => true
  | _ => false
  end.

(** [a === b] and [a !== b]. Primitive values are equal when they are the
    same value, objects when they are the same object. An object and a
    promise carry their reference, and two of them are the same object when
    the references are equal. An error object and a function carry none:
    on two of them with the same contents the comparison answers as for one
    object, which is what [===] answers when they are one object and not
    when they are two. *)
Definition strictEq (a b : value) : bool := bool_decide (a = b).
Definition strictNe (a b : value) : bool := negb (strictEq a b).


(** The outcome of evaluating a call: a returned value or a thrown one. *)
Inductive result :=
| Normal (v : value)
| Thrown (e : value).

(** ** Functions as programs *)

(** The two continue functions a middleware receives. *)
Inductive cont := Next | Terminate.

#[global] Instance cont_eq_dec : EqDecision cont.
Proof. solve_decision. Defined.

(** The body of a function. [C] names the continue functions in scope
    ([cont] for a middleware, [Empty_set] for the continue functions handed
    to a composed brigade, which receive no arguments). [A] is [unit] in the
    body of an [async] function and [Empty_set] in the body of a plain
    function, where [await] cannot be written.

    [Call c k] calls the continue function [c] and goes on with [k r], where
    [r] is what the call returned or threw: a body that does not catch
    continues with [Throw e] on [Thrown e]. [Await] likewise hands the
    fulfilment value or the rejection reason to its continuation. *)
Inductive prog (C A : Type) : Type :=
| Return (v : value)
| Throw (e : value)
| Call (c : C) (k : result -> prog C A)
| Push (mark : value) (k : prog C A)
| PromiseResolve (v : value) (k : value -> prog C A)
| PromiseReject (e : value) (k : value -> prog C A)
| Await (a : A) (v : value) (k : result -> prog C A).

Arguments Return {C A} v.
Arguments Throw {C A} e.
Arguments Call {C A} c k.
Arguments Push {C A} mark k.
Arguments PromiseResolve {C A} v k.
Arguments PromiseReject {C A} e k.
Arguments Await {C A} a v k.

(** A function value: its [name] property ([""] for an anonymous function)
    and its body. *)
Inductive fn (C : Type) : Type :=
| SyncFn (name : string) (body : prog C Empty_set)
| AsyncFn (name : string) (body : prog C unit).

Arguments SyncFn {C} name body.
Arguments AsyncFn {C} name body.

Definition fn_name {C} (f : fn C) : string :=
  match f with
  | SyncFn name _ => name
  | AsyncFn name _ => name
  end.

(** [type Middleware], [type ContinueMiddleware] and [type Brigade]. *)
Abbreviation Middleware := (fn cont).
Abbreviation ContinueMiddleware := (fn Empty_set).
Abbreviation Brigade := (list Middleware).

(** ** Promises and the microtask queue *)

(** What runs when a promise settles. *)
Inductive reaction :=
| ResumeMiddleware (i : nat) (q : nat) (k : result -> prog cont unit)
    (* go on after an [await] in the async middleware at position [i],
       whose own promise is [q] *)
| ResumeContinue (q : nat) (k : result -> prog Empty_set unit)
    (* the same in an async continue function *)
| Adopt (q : nat)
    (* [q] was resolved with this promise and follows it *)
| ThenCheckResult (response : value) (q : nat).
    (* the [then] callback of [callMiddleware]; [q] is the promise that
       [then] returned *)

Inductive pstate :=
| Pending (reactions : list reaction)
| Fulfilled (v : value)
| Rejected (e : value).

Abbreviation task := (reaction * result)%type.

(** What one invocation of a composed brigade was asked to do, in order;
    bookkeeping only, no code reads it. *)
Inductive event :=
| Invoked (i : nat)      (* [brigade[i]] was called *)
| Called (c : cont).     (* the brigade's own [next] or [terminate] was called *)

#[global] Instance event_eq_dec : EqDecision event.
Proof. solve_decision. Defined.

Record state := mkState {
  hasTerminated : bool;          (* [let hasTerminated] of [composedMiddleware] *)
  receivedCalls : list value;    (* the marks pushed on the shared request *)
  promises : list pstate;        (* the promise with reference [q] is at index [q] *)
  microtasks : list task;
  events : list event
}.

Definition set_hasTerminated (b : bool) (s : state) : state :=
  mkState b (receivedCalls s) (promises s) (microtasks s) (events s).
Definition set_receivedCalls (l : list value) (s : state) : state :=
  mkState (hasTerminated s) l (promises s) (microtasks s) (events s).
Definition set_promises (ps : list pstate) (s : state) : state :=
  mkState (hasTerminated s) (receivedCalls s) ps (microtasks s) (events s).
Definition set_microtasks (ts : list task) (s : state) : state :=
  mkState (hasTerminated s) (receivedCalls s) (promises s) ts (events s).
Definition set_events (es : list event) (s : state) : state :=
  mkState (hasTerminated s) (receivedCalls s) (promises s) (microtasks s) es.

Definition initial : state := mkState false [] [] [] [].

Definition push (mark : value) (s : state) : state :=
  set_receivedCalls (receivedCalls s ++ [mark]) s.

Definition record (e : event) (s : state) : state :=
  set_events (events s ++ [e]) s.

Definition enqueue (t : task) (s : state) : state :=
  set_microtasks (microtasks s ++ [t]) s.

Definition newPromise (st : pstate) (s : state) : nat * state :=
  (length (promises s), set_promises (promises s ++ [st]) s).

Definition settled (r : result) : pstate :=
  match r with
  | Normal v => Fulfilled v
  | Thrown e => Rejected e
  end.

(** Fulfil or reject a pending promise and queue its reactions; a promise
    that is already settled stays as it is. *)
Definition settle (q : nat) (r : result) (s : state) : state :=
  match promises s !! q with
  | Some (Pending rs) =>
      set_microtasks (microtasks s ++ map (fun rc => (rc, r)) rs)
        (set_promises (<[q := settled r]> (promises s)) s)
  | _ => s
  end.

(** Attach a reaction to a promise: it is queued at once when the promise is
    already settled. *)
Definition subscribe (p : nat) (rc : reaction) (s : state) : state :=
  match promises s !! p with
  | Some (Pending rs) => set_promises (<[p := Pending (rs ++ [rc])]> (promises s)) s
  | Some (Fulfilled v) => enqueue (rc, Normal v) s
  | Some (Rejected e) => enqueue (rc, Thrown e) s
  | None => s
  end.

(** [await v]: a value that is not a promise is awaited as if it were one
    already fulfilled with it. *)
Definition awaitValue (v : value) (rc : reaction) (s : state) : state :=
  match v with
  | VPromise p => subscribe p rc s
  | _ => enqueue (rc, Normal v) s
  end.

Definition chainingCycle : value :=
  VError TypeError "Chaining cycle detected for promise #<Promise>".

(** The resolve function of promise [q]: resolved with another promise, [q]
    follows it. *)
Definition resolvePromise (q : nat) (v : value) (s : state) : state :=
  match v with
  | VPromise p =>
      if decide (p = q) then settle q (Thrown chainingCycle) s
      else subscribe p (Adopt q) s
  | _ => settle q (Normal v) s
  end.

(** [Promise.resolve(v)] and [Promise.reject(e)] *)
Definition promiseResolve (v : value) (s : state) : value * state :=
  match v with
  | VPromise _ => (v, s)
  | _ => let '(q, s') := newPromise (Fulfilled v) s in (VPromise q, s')
  end.

Definition promiseReject (e : value) (s : state) : value * state :=
  let '(q, s') := newPromise (Rejected e) s in (VPromise q, s').

(** ** Running a function body *)

Inductive outcome (C A : Type) : Type :=
| Done (r : result)
| Suspended (a : A) (v : value) (k : result -> prog C A).

Arguments Done {C A} r.
Arguments Suspended {C A} a v k.

(** Run a body up to its end or to its first [await]. [call] gives the
    continue functions in scope. *)
Fixpoint exec {C A} (call : C -> state -> result * state)
    (p : prog C A) (s : state) : outcome C A * state :=
  match p with
  | Return v => (Done (Normal v), s)
  | Throw e => (Done (Thrown e), s)
  | Call c k => let '(r, s') := call c s in exec call (k r) s'
  | Push mark k => exec call k (push mark s)
  | PromiseResolve v k => let '(p', s') := promiseResolve v s in exec call (k p') s'
  | PromiseReject e k => let '(p', s') := promiseReject e s in exec call (k p') s'
  | Await a v k => (Suspended a v k, s)
  end.

(** What the run of an async body does to the promise [q] of its function:
    a returned value resolves it, a thrown one rejects it, an [await]
    leaves it pending and parks the rest of the body ([resume k]) on the
    awaited value. *)
Definition finishAsync {C} (resume : (result -> prog C unit) -> reaction)
    (q : nat) (o : outcome C unit * state) : state :=
  match o with
  | (Done (Normal v), s) => resolvePromise q v s
  | (Done (Thrown e), s) => settle q (Thrown e) s
  | (Suspended _ v k, s) => awaitValue v (resume k) s
  end.

(** Call a function. A plain function returns or throws what its body does;
    an async function always returns its promise. *)
Definition invoke {C} (resume : nat -> (result -> prog C unit) -> reaction)
    (call : C -> state -> result * state) (f : fn C) (s : state) : result * state :=
  match f with
  | SyncFn _ body =>
      match exec call body s with
      | (Done r, s') => (r, s')
      | (Suspended a _ _, _) => match a with end
      end
  | AsyncFn _ body =>
      let '(q, s1) := newPromise (Pending []) s in
      (Normal (VPromise q), finishAsync (resume q) q (exec call body s1))
  end.

Definition noCall (c : Empty_set) : state -> result * state :=
  match c with end.

(** ** [locatedError] *)

(** Compose an error message that identifies the middleware which triggered
    the error. [i] is a JavaScript number: [dispatchToMiddleware] passes
    [i - 1], which is [-1] at position [0]. Inside the guard [brigade[i]]
    exists, so the [None] branch is never taken. *)
Definition locatedError (brigade : Brigade) (i : Z) (message : string) : string :=
  if (0 <=? i) && (i <? Z.of_nat (length brigade)) then
    match brigade !! Z.to_nat i with
    | Some m =>
        "Composed middleware #" +:+ pretty i +:+ " '" +:+ fn_name m +:+ "' " +:+ message
    | None => message
    end
  else message.

Module Legacy.

(** [locatedError] as the earlier revision of [src/index.js] has it: every
    message carries the position, and a position outside the array is
    given a fixed name. *)
Definition placeholder : string := "XYZZY-UPDATE-ME".

Definition locatedError (middleware : Brigade) (i : Z) (message : string) : string :=
  let name :=
    if i <? 0 then placeholder
    else if i <? Z.of_nat (length middleware) then
      match middleware !! Z.to_nat i with
      | Some m => fn_name m
      | None => placeholder
      end
    else placeholder in
  "Composed middleware #" +:+ pretty i +:+ " '" +:+ name +:+ "' " +:+ message.

End Legacy.

(** ** [compose] *)

Definition nextAfterTerminated : string :=
  "has called its next function after the middleware brigade has been terminated by a prior " +:+
  "call to either its next function or its terminate function".

Definition terminateAfterTerminated : string :=
  "has called its terminate function after the middleware brigade has been terminated by a prior " +:+
  "call to either its next function or its terminate function".

Definition promiseExpected (response : value) : string :=
  "has returned a value of type '" +:+ typeOf response +:+ "' when a Promise was expected".

(** [typeof response === 'object' && response !== null &&
     typeof response.then === 'function'] *)
Definition isPromiseLike (response : value) : bool :=
  bool_decide (typeOf response = "object") && strictNe response VNull
  && hasCallableThen response.

Definition unexpectedResponse : string :=
  "Middleware brigade terminated with an unexpected response value indicating " +:+
  "that a middleware function failed to call next or terminate, or failed to " +:+
  "incorporate the resulting value into its own return value".

Definition undefinedResult : string :=
  "Middleware brigade result cannot be undefined".

(** The callback that [callMiddleware] passes to [then]. *)
Definition checkResult (response result : value) (s : state) : value * state :=
  if strictNe response VUndefined && strictNe result response then
    promiseReject (VError Error unexpectedResponse) s
  else if strictEq result VUndefined then
    promiseReject (VError Error undefinedResult) s
  else (result, s).

Section Compose.

(** The arguments of [compose] and of [composedMiddleware]. Their types make
    the four [invariant] checks on them hold: [brigade] is an array of
    functions, [next] and [terminate] are functions. The request is the
    shared object whose marks are [receivedCalls]. *)
Variable brigade : Brigade.
Variables next terminate : ContinueMiddleware.

(** Calling the brigade's own [next] or [terminate]: no arguments are
    passed, so its body has no continue function in scope. *)
Definition callContinue (c : cont) (s : state) : result * state :=
  invoke ResumeContinue noCall
    (match c with Next => next | Terminate => terminate end)
    (record (Called c) s).

(** prematurely terminate the middleware brigade *)
Definition dispatchTerminate (i : nat) (s : state) : result * state :=
  if hasTerminated s then
    (Thrown (VError Error
       (locatedError brigade (Z.of_nat i) terminateAfterTerminated)), s)
  else
    callContinue Terminate (set_hasTerminated true s).

(** The body of the [try] block, followed by the [catch] clause. *)
Definition checkResponse (i : nat) (o : result * state) : result * state :=
  match o with
  | (Normal response, s) =>
      if isPromiseLike response then (Normal response, s)
      else
        let '(p, s') :=
          promiseReject
            (VError TypeError
               (locatedError brigade (Z.of_nat i) (promiseExpected response))) s in
        (Normal p, s')
  | (Thrown err, s) =>
      let '(p, s') := promiseReject err s in (Normal p, s')
  end.

(** Dispatch to the i-th middleware in the composed middleware brigade.
    [rest] is [brigade] from position [i] on, so that [i < brigade.length]
    reads [rest] is not empty and [brigade[i]] is its head; [dispatchNext]
    of position [i] is the dispatch to the tail at [i + 1]. *)
Fixpoint dispatchToMiddleware (rest : list Middleware) (i : nat) (s : state)
    : result * state :=
  if hasTerminated s then
    (Thrown (VError Error
       (locatedError brigade (Z.of_nat i - 1) nextAfterTerminated)), s)
  else
    checkResponse i
      match rest with
      | m :: rest' =>
          invoke (ResumeMiddleware i)
            (fun c => match c with
                      | Next => dispatchToMiddleware rest' (S i)
                      | Terminate => dispatchTerminate i
                      end)
            m (record (Invoked i) s)
      | [] => callContinue Next (set_hasTerminated true s)
      end.

(** Dispatch to the next middleware in the brigade *)
Definition dispatchNext (i : nat) : state -> result * state :=
  dispatchToMiddleware (drop (S i) brigade) (S i).

(** The [next] and [terminate] arguments that [brigade[i]] receives. *)
Definition continueFns (i : nat) (c : cont) : state -> result * state :=
  match c with
  | Next => dispatchNext i
  | Terminate => dispatchTerminate i
  end.

(** [composedMiddleware(request, next, terminate)]: a fresh [hasTerminated]
    (the state follows this one invocation) and the dispatch to position
    [0]. *)
Definition composedMiddleware (s : state) : result * state :=
  dispatchToMiddleware brigade 0 (set_hasTerminated false s).

(** ** The job queue *)

Definition runTask (t : task) (s : state) : state :=
  match t with
  | (ResumeMiddleware i q k, r) =>
      finishAsync (ResumeMiddleware i q) q (exec (continueFns i) (k r) s)
  | (ResumeContinue q k, r) =>
      finishAsync (ResumeContinue q) q (exec noCall (k r) s)
  | (Adopt q, r) => settle q r s
  | (ThenCheckResult response q, Normal result) =>
      let '(v, s') := checkResult response result s in resolvePromise q v s'
  | (ThenCheckResult _ q, Thrown e) => settle q (Thrown e) s
  end.

(** Run queued jobs in order, at most [fuel] of them. *)
Fixpoint runMicrotasks (fuel : nat) (s : state) : state :=
  match fuel with
  | O => s
  | S fuel' =>
      match microtasks s with
      | [] => s
      | t :: ts => runMicrotasks fuel' (runTask t (set_microtasks ts s))
      end
  end.

End Compose.

(** ** [compose] in the earlier revision *)

Module LegacyCompose.

(** [compose] as the earlier revision of [src/index.js] has it: the same
    dispatch, with [skipNext] for [terminate], other texts and the earlier
    [locatedError]. [Terminate] stands for [skipNext]. *)
Definition nextAfterTerminated : string :=
  "has called its next function after the middleware chain has been terminated by a prior " +:+
  "call to either its next function or its skipNext function".

Definition skipNextAfterTerminated : string :=
  "has called its skipNext function after the middleware chain has been terminated by a prior " +:+
  "call to either its next function or its skipNext function".

Section Compose.

Variable middleware : Brigade.
Variables next skipNext : ContinueMiddleware.

(** prematurely terminate the middleware chain *)
Definition dispatchSkipNext (i : nat) (s : state) : result * state :=
  if hasTerminated s then
    (Thrown (VError Error
       (Legacy.locatedError middleware (Z.of_nat i) skipNextAfterTerminated)), s)
  else
    callContinue next skipNext Terminate (set_hasTerminated true s).

(** The body of the [try] block, followed by the [catch] clause. *)
Definition checkResult (i : nat) (o : result * state) : result * state :=
  match o with
  | (Normal result, s) =>
      if isPromiseLike result then (Normal result, s)
      else
        let '(p, s') :=
          promiseReject
            (VError TypeError
               (Legacy.locatedError middleware (Z.of_nat i) (promiseExpected result))) s in
        (Normal p, s')
  | (Thrown err, s) =>
      let '(p, s') := promiseReject err s in (Normal p, s')
  end.

(** Dispatch to the i-th middleware in the composed stack; [rest] is
    [middleware] from position [i] on. *)
Fixpoint dispatch (rest : list Middleware) (i : nat) (s : state) : result * state :=
  if hasTerminated s then
    (Thrown (VError Error
       (Legacy.locatedError middleware (Z.of_nat i - 1) nextAfterTerminated)), s)
  else
    checkResult i
      match rest with
      | m :: rest' =>
          invoke (ResumeMiddleware i)
            (fun c => match c with
                      | Next => dispatch rest' (S i)
                      | Terminate => dispatchSkipNext i
                      end)
            m (record (Invoked i) s)
      | [] => callContinue next skipNext Next (set_hasTerminated true s)
      end.

(** Dispatch to the next middleware in the chain *)
Definition dispatchNext (i : nat) : state -> result * state :=
  dispatch (drop (S i) middleware) (S i).

Definition continueFns (i : nat) (c : cont) : state -> result * state :=
  match c with
  | Next => dispatchNext i
  | Terminate => dispatchSkipNext i
  end.

Definition composedMiddleware (s : state) : result * state :=
  dispatch middleware 0 (set_hasTerminated false s).

End Compose.

End LegacyCompose.

(** ** [callMiddleware] *)

(** [const continueFn = () => Promise.resolve(response)] *)
Definition continueFn (response : value) : ContinueMiddleware :=
  SyncFn "continueFn" (PromiseResolve response Return).

(** What [callMiddleware] is given as [middleware]: something that is not a
    function, or a function, given by what a call of it with its [next] and
    [terminate] arguments does ([composedMiddleware brigade] for a composed
    brigade). *)
Inductive callee :=
| NotAFunction
| Callable (call : ContinueMiddleware -> ContinueMiddleware -> state -> result * state).

(** [v.then(...)] for a [v] that is not a promise throws a [TypeError]:
    reading a property of undefined or of null fails, and on another value
    [then] is not a function. The text is the engine's, here in the wording
    of V8. *)
Definition thenOfNonPromise (v : value) : value :=
  VError TypeError
    match v with
    | VUndefined => "Cannot read properties of undefined (reading 'then')"
    | VNull => "Cannot read properties of null (reading 'then')"
    | _ => "middleware(...).then is not a function"
    end.

(** Call a middleware, which might possibly be a composed brigade, with a
    request and response object. The three checks come first, in the order
    of the source, and each throws with the state as it is. [request] is the
    value given as the request; what the middleware do with the request is
    in the state ([receivedCalls]). A [response] that was not supplied is
    [VUndefined]. *)
Definition callMiddleware (middleware : callee) (request response : value) (s : state)
    : result * state :=
  match middleware with
  | NotAFunction => (Thrown (VError Error "Middleware must be a function"), s)
  | Callable call =>
      if negb (bool_decide (typeOf request = "object") && strictNe request VNull) then
        (Thrown (VError Error "request must be an object"), s)
      else if negb (strictEq response VUndefined
               || (bool_decide (typeOf response = "object") && strictNe response VNull)) then
        (Thrown (VError Error "response must be an object if specified"), s)
      else
        match call (continueFn response) (continueFn response) s with
        | (Normal (VPromise p), s') =>
            let '(q, s'') := newPromise (Pending []) s' in
            (Normal (VPromise q), subscribe p (ThenCheckResult response q) s'')
        | (Normal v, s') => (Thrown (thenOfNonPromise v), s')
        | (Thrown e, s') => (Thrown e, s')
        end
  end.

(** ** Middleware used in the statements *)

(** A body that does not catch: go on with [k] on a value, rethrow otherwise. *)
Definition orThrow {C A} (k : value -> prog C A) (r : result) : prog C A :=
  match r with
  | Normal v => k v
  | Thrown e => Throw e
  end.

(** [async (request, next) => { request.receivedCalls.push(before);
      const result = await next(); request.receivedCalls.push(after);
      return result; }] *)
Definition afterAwait (after : value) : result -> prog cont unit :=
  orThrow (fun result => Push after (Return result)).

Definition recorder (before after : value) : Middleware :=
  AsyncFn "" (Push before (Call Next (orThrow (fun p => Await tt p (afterAwait after))))).

(** [() => Promise.resolve(v)] *)
Definition resolving (v : value) : ContinueMiddleware :=
  SyncFn "" (PromiseResolve v Return).

(** [(request, next) => next()] *)
Definition forwarder : Middleware :=
  SyncFn "" (Call Next (orThrow Return)).

(** [function badDog(request, next) { next(); return next(); }] *)
Definition nextTwice : Middleware :=
  SyncFn "badDog" (Call Next (orThrow (fun _ => Call Next (orThrow Return)))).

(** [function badDog(request, next, terminate) { terminate(); return terminate(); }] *)
Definition terminateTwice : Middleware :=
  SyncFn "badDog" (Call Terminate (orThrow (fun _ => Call Terminate (orThrow Return)))).

(** [async (request, next) => { await undefined; return next(); }]: a
    middleware that reaches its [next] only in a later job. *)
Definition later : Middleware :=
  AsyncFn "" (Await tt VUndefined (fun _ => Call Next (orThrow Return))).

(** [async (request, next) => next()] and
    [async (request, next) => { next(); }] *)
Definition asyncForwarder : Middleware := AsyncFn "" (Call Next (orThrow Return)).
Definition asyncDropper : Middleware :=
  AsyncFn "" (Call Next (orThrow (fun _ => Return VUndefined))).

(** [(request, next, terminate) => terminate()] *)
Definition terminator : Middleware := SyncFn "" (Call Terminate (orThrow Return)).

(** [async function badDog(request, next, terminate) { next(); return terminate(); }] *)
Definition nextThenTerminate : Middleware :=
  AsyncFn "badDog" (Call Next (orThrow (fun _ => Call Terminate (orThrow Return)))).

(** [async function badDog(request, next, terminate) { await terminate(); await next(); }] *)
Definition terminateThenNext : Middleware :=
  AsyncFn "badDog"
    (Call Terminate (orThrow (fun p =>
       Await tt p (orThrow (fun _ =>
         Call Next (orThrow (fun p' =>
           Await tt p' (orThrow (fun _ => Return VUndefined))))))))).

(** A function without a name of its own, as [() => 0] in an array literal. *)
Definition anonymous : Middleware := SyncFn "" (Return (VNumber 0)).

(** [function badDog() { return 'woof'; }] *)
Definition woof : Middleware := SyncFn "badDog" (Return (VString "woof")).

(** [() => { throw new Error('test'); }], as a middleware and as a continue
    function *)
Definition thrower : Middleware := SyncFn "" (Throw (VError Error "test")).
Definition throwing : ContinueMiddleware := SyncFn "" (Throw (VError Error "test")).

(** The brigade of the test suite whose middleware push [1], [2], [3]
    before and [6], [5], [4] after their call of next. *)
Definition deepBrigade : Brigade :=
  [recorder (VNumber 1) (VNumber 6); recorder (VNumber 2) (VNumber 5);
   recorder (VNumber 3) (VNumber 4)].

(** The brigade of recorders with the given marks, and the brigade of [N]
    middleware that each push their index before they call next and again
    after the promise of next is resolved, and return the result. *)
Definition recorders (marks : list (value * value)) : Brigade :=
  map (fun ba => recorder (fst ba) (snd ba)) marks.

Definition indexed (N : nat) : Brigade :=
  map (fun i => recorder (VNumber (Z.of_nat i)) (VNumber (Z.of_nat i))) (seq 0 N).

(** [compose(brigade)(request, next, terminate)] on a fresh request, and
    [callMiddleware(compose(brigade), request, response)], each followed by
    the jobs it leaves, at most [fuel] of them. *)
Definition composeAndRun (brigade : Brigade) (next terminate : ContinueMiddleware)
    (fuel : nat) : result * state :=
  let '(r, s) := composedMiddleware brigade next terminate initial in
  (r, runMicrotasks brigade next terminate fuel s).

Definition callAndRun (brigade : Brigade) (request response : value) (fuel : nat)
    : result * state :=
  let '(r, s) :=
    callMiddleware (Callable (composedMiddleware brigade)) request response initial in
  (r, runMicrotasks brigade (continueFn response) (continueFn response) fuel s).

(** ** Notions used in the statements *)

(** [`Composed middleware #${i} '${name}' ${message}`] *)
Definition located (i : Z) (name message : string) : string :=
  "Composed middleware #" +:+ pretty i +:+ " '" +:+ name +:+ "' " +:+ message.

(** The promise that [Promise.reject(e)] creates in [s]. *)
Definition rejectedIn (e : value) (s : state) : result * state :=
  (Normal (VPromise (length (promises s))),
   set_promises (promises s ++ [Rejected e]) s).

(** The part of the state that belongs to the dispatcher, and a property of
    it. *)
Definition ctrl (s : state) : bool * list event := (hasTerminated s, events s).

Definition holds (P : bool -> list event -> Prop) (s : state) : Prop :=
  P (hasTerminated s) (events s).

Definition isCalled (e : event) : bool :=
  match e with
  | Called _ => true
  | Invoked _ => false
  end.

(** How often the brigade's own [next] or [terminate] was called. *)
Definition calledCount (es : list event) : nat := length (List.filter isCalled es).

Definition flagCounts (b : bool) (es : list event) : Prop :=
  calledCount es = if b then 1%nat else 0%nat.

Definition terminateNeverCalled (b : bool) (es : list event) : Prop :=
  b = true /\ Called Terminate ∉ es.


(** The promises that a dispatch through recorders leaves behind when
    [next] resolves to [v], from the promise of the recorder at position [i]
    (with reference [q] and the reactions [rs]) to the promise that [next]
    returned: each recorder waits on the promise of the following one. *)
Fixpoint chain (v : value) (rs : list reaction) (i q : nat)
    (marks : list (value * value)) : list pstate :=
  match marks with
  | [] => [Fulfilled v]
  | (_, after) :: marks' =>
      Pending rs
      :: chain v [ResumeMiddleware i q (afterAwait after)] (S i) (S q) marks'
  end.

(** The job that this leaves in the queue: the last recorder goes on, its
    awaited promise being fulfilled already. *)
Fixpoint parked (v : value) (rs : list reaction) (i q : nat)
    (marks : list (value * value)) : list task :=
  match marks with
  | [] => map (fun rc => (rc, Normal v)) rs
  | (_, after) :: marks' =>
      parked v [ResumeMiddleware i q (afterAwait after)] (S i) (S q) marks'
  end.

(** The events end with the one call of a continue function of the
    brigade, when the flag says there was one; there is none otherwise. *)
Definition calledLast (b : bool) (es : list event) : Prop :=
  if b then exists es' c, es = es' ++ [Called c] /\ calledCount es' = 0%nat
  else calledCount es = 0%nat.

(** The middleware were called in the order of the brigade: a call of the
    middleware at [j + 1] comes after a call of the one at [j], and only
    positions that hold a middleware were called. *)
Definition inOrder (brigade : Brigade) (es : list event) : Prop :=
  (forall i, Invoked i ∈ es -> (i < length brigade)%nat)
  /\ forall es1 es2 j, es = es1 ++ Invoked (S j) :: es2 -> Invoked j ∈ es1.

(** The parked rests of middleware bodies belong to positions that were
    called. *)
Definition resumesInvoked (es : list event) (rc : reaction) : Prop :=
  match rc with
  | ResumeMiddleware i _ _ => Invoked i ∈ es
  | _ => True
  end.

Definition parkedInvoked (es : list event) (st : pstate) : Prop :=
  match st with
  | Pending rs => Forall (resumesInvoked es) rs
  | _ => True
  end.

Definition orderly (brigade : Brigade) (s : state) : Prop :=
  inOrder brigade (events s)
  /\ Forall (parkedInvoked (events s)) (promises s)
  /\ Forall (fun t : task => resumesInvoked (events s) (fst t)) (microtasks s).

(** [orderly], in the body of the middleware at position [i]. *)
Definition orderlyAt (brigade : Brigade) (i : nat) (s : state) : Prop :=
  orderly brigade s /\ Invoked i ∈ events s.


Definition throws (name : string) (e : value) : Middleware := SyncFn name (Throw e).

(** The state in which position [i + k] is entered when position [i] was
    entered in [s] and the [k] middleware from [i] on did nothing but call
    next. *)
Definition enteredFrom (i k : nat) (s : state) : state :=
  set_events (events s ++ map Invoked (seq i k)) s.

(** [function name() { return Promise.resolve(x); }]: a middleware that
    answers by itself, calling neither continue function. *)
Definition answering (name : string) (x : value) : Middleware :=
  SyncFn name (PromiseResolve x Return).

(** * Properties *)

(** ** The flag and the events under every operation *)

Lemma ctrl_push mark s : ctrl (push mark s) = ctrl s.
Proof. reflexivity. Qed.

Lemma ctrl_enqueue t s : ctrl (enqueue t s) = ctrl s.
Proof. reflexivity. Qed.

Lemma ctrl_newPromise st s : ctrl (snd (newPromise st s)) = ctrl s.
Proof. reflexivity. Qed.

Lemma ctrl_settle q r s : ctrl (settle q r s) = ctrl s.
Proof. unfold settle. destruct (promises s !! q) as [[]|]; reflexivity. Qed.

Lemma ctrl_subscribe p rc s : ctrl (subscribe p rc s) = ctrl s.
Proof. unfold subscribe. destruct (promises s !! p) as [[]|]; reflexivity. Qed.

Lemma ctrl_awaitValue v rc s : ctrl (awaitValue v rc s) = ctrl s.
Proof. destruct v; simpl; auto using ctrl_subscribe, ctrl_enqueue. Qed.

Lemma ctrl_resolvePromise q v s : ctrl (resolvePromise q v s) = ctrl s.
Proof.
  destruct v; simpl; auto using ctrl_settle.
  destruct (decide (ref = q)); auto using ctrl_settle, ctrl_subscribe.
Qed.

Lemma ctrl_promiseResolve v s : ctrl (snd (promiseResolve v s)) = ctrl s.
Proof. destruct v; reflexivity. Qed.

Lemma ctrl_promiseReject e s : ctrl (snd (promiseReject e s)) = ctrl s.
Proof. reflexivity. Qed.

Lemma ctrl_set_microtasks ts s : ctrl (set_microtasks ts s) = ctrl s.
Proof. reflexivity. Qed.

(** A property of the flag and the events that survives the two ways they
    change (a middleware is called; the flag goes from false to true and a
    continue function of the brigade is called) holds after whatever the
    brigade, its middleware and its continue functions do. *)
Section Preservation.

Variable brigade : Brigade.
Variables next terminate : ContinueMiddleware.
Variable P : bool -> list event -> Prop.

Hypothesis P_invoked : forall b es i, P b es -> P b (es ++ [Invoked i]).
Hypothesis P_called : forall es c, P false es -> P true (es ++ [Called c]).

Lemma holds_ctrl s s' : ctrl s' = ctrl s -> holds P s -> holds P s'.
Proof. unfold ctrl, holds. intros [= -> ->]. auto. Qed.

Lemma exec_holds {C A} (call : C -> state -> result * state) (p : prog C A) :
  (forall c s, holds P s -> holds P (snd (call c s))) ->
  forall s, holds P s -> holds P (snd (exec call p s)).
Proof.
  intros Hcall. induction p as [v|e|c k IH|mark k IH|v k IH|e k IH|a v k IH];
    intros s Hs; simpl; auto.
  - specialize (Hcall c s Hs). destruct (call c s) as [r s']. auto.
  - pose proof (ctrl_promiseResolve v s) as Hc.
    destruct (promiseResolve v s) as [p' s']. apply IH. eapply holds_ctrl; eauto.
Qed.

Lemma finishAsync_holds {C} resume q (o : outcome C unit * state) :
  holds P (snd o) -> holds P (finishAsync resume q o).
Proof.
  destruct o as [[[v|e]|a v k] s]; simpl; intros Hs;
    (eapply holds_ctrl; [|exact Hs]);
    auto using ctrl_resolvePromise, ctrl_settle, ctrl_awaitValue.
Qed.

Lemma invoke_holds {C} resume (call : C -> state -> result * state) (f : fn C) :
  (forall c s, holds P s -> holds P (snd (call c s))) ->
  forall s, holds P s -> holds P (snd (invoke resume call f s)).
Proof.
  intros Hcall s Hs. destruct f as [name body|name body]; simpl.
  - pose proof (exec_holds call body Hcall s Hs) as H.
    destruct (exec call body s) as [[r|[]] s']. exact H.
  - apply finishAsync_holds, exec_holds; auto.
Qed.

Lemma noCall_holds c s : holds P s -> holds P (snd (noCall c s)).
Proof. destruct c. Qed.

Lemma callContinue_holds c s :
  hasTerminated s = false -> holds P s ->
  holds P (snd (callContinue next terminate c (set_hasTerminated true s))).
Proof.
  intros Hf Hs. apply invoke_holds; [apply noCall_holds|].
  unfold holds in *. simpl. rewrite Hf in Hs. auto.
Qed.

Lemma dispatchTerminate_holds i s :
  holds P s -> holds P (snd (dispatchTerminate brigade next terminate i s)).
Proof.
  intros Hs. unfold dispatchTerminate.
  destruct (hasTerminated s) eqn:Hf; [exact Hs|].
  apply callContinue_holds; auto.
Qed.

Lemma checkResponse_holds i o :
  holds P (snd o) -> holds P (snd (checkResponse brigade i o)).
Proof.
  destruct o as [[response|err] s]; simpl; intros Hs.
  - destruct (isPromiseLike response); auto.
  - exact Hs.
Qed.

Lemma dispatchToMiddleware_holds rest : forall i s,
  holds P s -> holds P (snd (dispatchToMiddleware brigade next terminate rest i s)).
Proof.
  induction rest as [|m rest IH]; intros i s Hs; simpl;
    (destruct (hasTerminated s) eqn:Hf; [exact Hs|]);
    apply checkResponse_holds.
  - apply callContinue_holds; auto.
  - apply invoke_holds.
    + intros [] s' Hs'; [apply IH|apply dispatchTerminate_holds]; auto.
    + unfold holds. simpl. apply P_invoked, Hs.
Qed.

Lemma continueFns_holds i c s :
  holds P s -> holds P (snd (continueFns brigade next terminate i c s)).
Proof.
  destruct c; [apply dispatchToMiddleware_holds|apply dispatchTerminate_holds].
Qed.

Lemma runTask_holds t s :
  holds P s -> holds P (runTask brigade next terminate t s).
Proof.
  intros Hs. destruct t as [[i q k|q k|q|response q] r]; simpl.
  - apply finishAsync_holds, exec_holds; auto using continueFns_holds.
  - apply finishAsync_holds, exec_holds; auto using noCall_holds.
  - eapply holds_ctrl; [apply ctrl_settle|done].
  - destruct r as [result|e].
    + destruct (checkResult response result s) as [v s'] eqn:E.
      eapply holds_ctrl; [apply ctrl_resolvePromise|].
      revert E. unfold checkResult.
      repeat case_match; intros [= <- <-]; auto.
    + eapply holds_ctrl; [apply ctrl_settle|done].
Qed.

Lemma runMicrotasks_holds fuel : forall s,
  holds P s -> holds P (runMicrotasks brigade next terminate fuel s).
Proof.
  induction fuel as [|fuel IH]; intros s Hs; simpl; [done|].
  destruct (microtasks s) as [|t ts] eqn:E; [done|].
  apply IH, runTask_holds. exact Hs.
Qed.

End Preservation.

Lemma locatedError_inside brigade (i : nat) m message :
  brigade !! i = Some m ->
  locatedError brigade (Z.of_nat i) message = located (Z.of_nat i) (fn_name m) message.
Proof.
  intros Hm. unfold locatedError.
  pose proof (lookup_lt_Some _ _ _ Hm) as Hlt.
  replace (0 <=? Z.of_nat i) with true by (symmetry; apply Z.leb_le; lia).
  replace (Z.of_nat i <? Z.of_nat (length brigade)) with true
    by (symmetry; apply Z.ltb_lt; lia).
  simpl. rewrite Nat2Z.id, Hm. reflexivity.
Qed.

Lemma locatedError_outside brigade (i : Z) message :
  i < 0 \/ Z.of_nat (length brigade) <= i ->
  locatedError brigade i message = message.
Proof.
  intros H. unfold locatedError.
  destruct (0 <=? i) eqn:E1; [|reflexivity].
  destruct (i <? Z.of_nat (length brigade)) eqn:E2; [|reflexivity].
  apply Z.leb_le in E1. apply Z.ltb_lt in E2. lia.
Qed.

Lemma legacy_locatedError_inside brigade (i : nat) m message :
  brigade !! i = Some m ->
  Legacy.locatedError brigade (Z.of_nat i) message
  = located (Z.of_nat i) (fn_name m) message.
Proof.
  intros Hm. unfold Legacy.locatedError.
  pose proof (lookup_lt_Some _ _ _ Hm) as Hlt.
  replace (Z.of_nat i <? 0) with false by (symmetry; apply Z.ltb_ge; lia).
  replace (Z.of_nat i <? Z.of_nat (length brigade)) with true
    by (symmetry; apply Z.ltb_lt; lia).
  rewrite Nat2Z.id, Hm. reflexivity.
Qed.

Lemma legacy_locatedError_outside brigade (i : Z) message :
  i < 0 \/ Z.of_nat (length brigade) <= i ->
  Legacy.locatedError brigade i message = located i Legacy.placeholder message.
Proof.
  intros H. unfold Legacy.locatedError.
  destruct (i <? 0) eqn:E1; [reflexivity|].
  destruct (i <? Z.of_nat (length brigade)) eqn:E2; [|reflexivity].
  apply Z.ltb_ge in E1. apply Z.ltb_lt in E2. lia.
Qed.

Example located_example :
  locatedError [anonymous; nextTwice] 1 nextAfterTerminated
  = "Composed middleware #1 'badDog' " +:+ nextAfterTerminated.
Proof. reflexivity. Qed.

(** ** Entering a position, and the two continue functions of a position *)

Lemma dispatchToMiddleware_terminated brigade next terminate rest i s :
  hasTerminated s = true ->
  dispatchToMiddleware brigade next terminate rest i s
  = (Thrown (VError Error
       (locatedError brigade (Z.of_nat i - 1) nextAfterTerminated)), s).
Proof. intros Hf. destruct rest; simpl; rewrite Hf; reflexivity. Qed.

(** At a position that holds a middleware, the dispatch calls it with the
    two continue functions of that position. *)
Lemma dispatchToMiddleware_inside brigade next terminate i m s :
  brigade !! i = Some m ->
  hasTerminated s = false ->
  dispatchToMiddleware brigade next terminate (drop i brigade) i s
  = checkResponse brigade i
      (invoke (ResumeMiddleware i) (continueFns brigade next terminate i) m
         (record (Invoked i) s)).
Proof.
  intros Hm Hf. rewrite (drop_S _ _ _ Hm). simpl. rewrite Hf. reflexivity.
Qed.

(** Past the end, it sets the flag and calls the brigade's own [next]. *)
Lemma dispatchToMiddleware_past_end brigade next terminate i s :
  (length brigade <= i)%nat ->
  hasTerminated s = false ->
  dispatchToMiddleware brigade next terminate (drop i brigade) i s
  = checkResponse brigade i
      (callContinue next terminate Next (set_hasTerminated true s)).
Proof.
  intros Hi Hf. rewrite drop_ge by exact Hi. simpl. rewrite Hf. reflexivity.
Qed.

(** The flag stays true under everything a continue function of the brigade
    does: its body has no access to it. *)
Lemma callContinue_terminated next terminate c s :
  hasTerminated s = true ->
  hasTerminated (snd (callContinue next terminate c s)) = true.
Proof.
  intros Hf. unfold callContinue.
  apply (invoke_holds (fun b _ => b = true)); [apply noCall_holds|exact Hf].
Qed.

(** C5. Entering the dispatch at a position [i] when [hasTerminated] is
    already true throws, before anything else happens and leaving the state
    as it was, an [Error] whose message identifies the middleware at
    position [i - 1] by number and name and says that it has called its next
    function after the brigade has been terminated. *)
Theorem dispatch_entry_after_termination
    brigade next terminate rest (i : nat) m s :
  hasTerminated s = true ->
  (0 < i)%nat ->
  brigade !! (i - 1)%nat = Some m ->
  dispatchToMiddleware brigade next terminate rest i s
  = (Thrown (VError Error
       ("Composed middleware #" +:+ pretty (Z.of_nat i - 1) +:+ " '" +:+ fn_name m +:+
        "' has called its next function after the middleware brigade has been " +:+
        "terminated by a prior call to either its next function or its terminate function")),
     s).
Proof.
  intros Hf Hi Hm. rewrite dispatchToMiddleware_terminated by exact Hf.
  replace (Z.of_nat i - 1) with (Z.of_nat (i - 1)) by lia.
  rewrite (locatedError_inside _ _ _ _ Hm). reflexivity.
Qed.

Lemma dispatch_entry_after_termination_witness :
  dispatchToMiddleware [nextTwice; forwarder] (resolving VNull) (resolving VNull)
    [forwarder] 1 (set_hasTerminated true initial)
  = (Thrown (VError Error
       "Composed middleware #0 'badDog' has called its next function after the middleware brigade has been terminated by a prior call to either its next function or its terminate function"),
     set_hasTerminated true initial).
Proof.
  apply (dispatch_entry_after_termination
           [nextTwice; forwarder] (resolving VNull) (resolving VNull)
           [forwarder] 1 nextTwice (set_hasTerminated true initial)).
  - reflexivity.
  - lia.
  - reflexivity.
Defined.

(** C4. The terminate function bound to position [i]. When [hasTerminated]
    is already true it throws an [Error] whose message identifies the
    middleware at [i] and says that it has called its terminate function
    after the brigade has been terminated. Otherwise the brigade's own
    [terminate] runs in a state where the flag is already true, what it
    returns (or throws) is what the call returns, the flag is still true
    afterwards, and the middleware at [i] goes on with that very result. *)
Theorem dispatchTerminate_spec brigade next terminate (i : nat) m s :
  brigade !! i = Some m ->
  (hasTerminated s = true ->
   dispatchTerminate brigade next terminate i s
   = (Thrown (VError Error
        ("Composed middleware #" +:+ pretty (Z.of_nat i) +:+ " '" +:+ fn_name m +:+
         "' has called its terminate function after the middleware brigade has been " +:+
         "terminated by a prior call to either its next function or its terminate function")),
      s))
  /\ (hasTerminated s = false ->
      let s0 := record (Called Terminate) (set_hasTerminated true s) in
      hasTerminated s0 = true
      /\ forall r s', invoke ResumeContinue noCall terminate s0 = (r, s') ->
           dispatchTerminate brigade next terminate i s = (r, s')
           /\ hasTerminated s' = true
           /\ forall A (k : result -> prog cont A),
                exec (continueFns brigade next terminate i) (Call Terminate k) s
                = exec (continueFns brigade next terminate i) (k r) s').
Proof.
  intros Hm. split; intros Hf.
  - unfold dispatchTerminate. rewrite Hf, (locatedError_inside _ _ _ _ Hm).
    reflexivity.
  - intros s0. split; [reflexivity|]. intros r s' Hr.
    assert (Hd : dispatchTerminate brigade next terminate i s = (r, s')).
    { unfold dispatchTerminate. rewrite Hf. exact Hr. }
    split; [exact Hd|]. split.
    + pose proof (callContinue_terminated next terminate Terminate
                    (set_hasTerminated true s) eq_refl) as Ht.
      unfold callContinue in Ht. fold s0 in Ht. rewrite Hr in Ht. exact Ht.
    + intros A k. simpl. rewrite Hd. reflexivity.
Qed.

Lemma dispatchTerminate_spec_witness :
  dispatchTerminate [terminateTwice] (resolving VNull) (resolving (VObject 7)) 0
    (set_hasTerminated true initial)
  = (Thrown (VError Error
       "Composed middleware #0 'badDog' has called its terminate function after the middleware brigade has been terminated by a prior call to either its next function or its terminate function"),
     set_hasTerminated true initial)
  /\ dispatchTerminate [terminateTwice] (resolving VNull) (resolving (VObject 7)) 0 initial
     = (Normal (VPromise 0),
        mkState true [] [Fulfilled (VObject 7)] [] [Called Terminate]).
Proof.
  split.
  - apply (proj1 (dispatchTerminate_spec [terminateTwice] (resolving VNull)
             (resolving (VObject 7)) 0 terminateTwice
             (set_hasTerminated true initial) eq_refl)).
    reflexivity.
  - apply (proj2 (dispatchTerminate_spec [terminateTwice] (resolving VNull)
             (resolving (VObject 7)) 0 terminateTwice initial eq_refl) eq_refl).
    reflexivity.
Defined.

(** ** The name in a message *)

Lemma string_length_app (a b : string) :
  String.length (a +:+ b) = (String.length a + String.length b)%nat.
Proof. induction a as [|c a IH]; simpl; [reflexivity|]. rewrite IH. reflexivity. Qed.

Lemma located_name_inj i name name' message :
  located i name message = located i name' message -> name = name'.
Proof.
  unfold located. intros H.
  apply (inj (String.app _)) in H. apply (inj (String.app _)) in H.
  apply (inj (String.app _)) in H.
  assert (Hlen : String.length name = String.length name').
  { apply (f_equal String.length) in H. rewrite !string_length_app in H. lia. }
  revert name' H Hlen.
  induction name as [|c name IH]; intros [|c' name'] H Hlen; simpl in *;
    try discriminate; [reflexivity|].
  injection H as -> H. f_equal. apply IH; [exact H|lia].
Qed.

(** C9, as stated, fails: the message for a middleware without a name
    carries the empty name between the quotes, in the current and in the
    earlier [locatedError] alike; no non-empty identifier stands in for it. *)
Lemma unnamed_middleware_counterexample :
  locatedError [anonymous] 0 (promiseExpected (VNumber 0))
  = "Composed middleware #0 '' has returned a value of type 'number' when a Promise was expected"
  /\ Legacy.locatedError [anonymous] 0 (promiseExpected (VNumber 0))
     = "Composed middleware #0 '' has returned a value of type 'number' when a Promise was expected"
  /\ ~ (exists name, name <> ""
          /\ (locatedError [anonymous] 0 (promiseExpected (VNumber 0))
              = located 0 name (promiseExpected (VNumber 0))
              \/ Legacy.locatedError [anonymous] 0 (promiseExpected (VNumber 0))
                 = located 0 name (promiseExpected (VNumber 0)))).
Proof.
  split; [reflexivity|]. split; [reflexivity|].
  intros (name & Hne & H). apply Hne.
  change (locatedError [anonymous] 0 (promiseExpected (VNumber 0)))
    with (located 0 "" (promiseExpected (VNumber 0))) in H.
  change (Legacy.locatedError [anonymous] 0 (promiseExpected (VNumber 0)))
    with (located 0 "" (promiseExpected (VNumber 0))) in H.
  destruct H as [H|H]; symmetry; exact (located_name_inj _ _ _ _ H).
Qed.

(** C9, amended. A message that identifies the middleware at a position of
    the brigade quotes its [name] property as it is, so a function without a
    name gives [''] (both revisions). For a position outside the brigade the
    earlier revision writes the fixed name ['XYZZY-UPDATE-ME'] and the
    current one returns the message alone. *)
Theorem locatedError_quotes_name (brigade : Brigade) message :
  (forall (i : nat) m, brigade !! i = Some m ->
     locatedError brigade (Z.of_nat i) message
     = "Composed middleware #" +:+ pretty (Z.of_nat i) +:+ " '" +:+ fn_name m +:+ "' " +:+ message
     /\ Legacy.locatedError brigade (Z.of_nat i) message
        = "Composed middleware #" +:+ pretty (Z.of_nat i) +:+ " '" +:+ fn_name m +:+ "' " +:+ message)
  /\ (forall i : Z, i < 0 \/ Z.of_nat (length brigade) <= i ->
        locatedError brigade i message = message
        /\ Legacy.locatedError brigade i message
           = "Composed middleware #" +:+ pretty i +:+ " 'XYZZY-UPDATE-ME' " +:+ message).
Proof.
  split.
  - intros i m Hm. split.
    + apply locatedError_inside, Hm.
    + apply legacy_locatedError_inside, Hm.
  - intros i Hi. split.
    + apply locatedError_outside, Hi.
    + apply legacy_locatedError_outside, Hi.
Qed.

Lemma locatedError_quotes_name_witness :
  (locatedError [anonymous; nextTwice] 0 "was here"
   = "Composed middleware #0 '' was here"
   /\ Legacy.locatedError [anonymous; nextTwice] 0 "was here"
      = "Composed middleware #0 '' was here")
  /\ (locatedError [anonymous; nextTwice] (-1) "was here" = "was here"
      /\ Legacy.locatedError [anonymous; nextTwice] (-1) "was here"
         = "Composed middleware #-1 'XYZZY-UPDATE-ME' was here").
Proof.
  split.
  - apply (proj1 (locatedError_quotes_name [anonymous; nextTwice] "was here")
             0%nat anonymous).
    reflexivity.
  - apply (proj2 (locatedError_quotes_name [anonymous; nextTwice] "was here") (-1)).
    left. lia.
Defined.

(** ** A response that is not a promise *)

Lemma isPromiseLike_spec v : isPromiseLike v = true <-> exists p, v = VPromise p.
Proof.
  split.
  - destruct v; try discriminate. eauto.
  - intros [p ->]. reflexivity.
Qed.

(** C6, as stated, fails past the end of the brigade: when the brigade's own
    [next] returns [0], the composed empty brigade rejects with a
    [TypeError] whose message is the bare text, with neither a position nor
    a name in it. *)
Lemma non_promise_past_end_counterexample :
  composedMiddleware [] (SyncFn "" (Return (VNumber 0))) (resolving VNull) initial
  = (Normal (VPromise 0),
     mkState true [] 
       [Rejected (VError TypeError
          "has returned a value of type 'number' when a Promise was expected")]
       [] [Called Next])
  /\ forall name,
       "has returned a value of type 'number' when a Promise was expected"
       <> located 0 name (promiseExpected (VNumber 0)).
Proof.
  split; [reflexivity|]. intros name. discriminate.
Qed.

(** C6, amended. When what the middleware at position [i] returned is not a
    promise-like object, the dispatch at [i] returns a fresh promise rejected
    with a [TypeError] whose message gives the position, the name of the
    middleware and the [typeof] of the value; at position [0] this is what
    the composed brigade returns. When it is the brigade's own [next], called
    past the end, that returned such a value, the message is only the text
    with the [typeof] of the value. *)
Theorem non_promise_response brigade next terminate :
  (forall (i : nat) m s v s1,
     brigade !! i = Some m ->
     hasTerminated s = false ->
     invoke (ResumeMiddleware i) (continueFns brigade next terminate i) m
       (record (Invoked i) s) = (Normal v, s1) ->
     isPromiseLike v = false ->
     dispatchToMiddleware brigade next terminate (drop i brigade) i s
     = rejectedIn
         (VError TypeError
            ("Composed middleware #" +:+ pretty (Z.of_nat i) +:+ " '" +:+ fn_name m +:+
             "' has returned a value of type '" +:+ typeOf v +:+
             "' when a Promise was expected")) s1)
  /\ (forall (i : nat) s v s1,
        (length brigade <= i)%nat ->
        hasTerminated s = false ->
        callContinue next terminate Next (set_hasTerminated true s) = (Normal v, s1) ->
        isPromiseLike v = false ->
        dispatchToMiddleware brigade next terminate (drop i brigade) i s
        = rejectedIn
            (VError TypeError
               ("has returned a value of type '" +:+ typeOf v +:+
                "' when a Promise was expected")) s1).
Proof.
  split.
  - intros i m s v s1 Hm Hf Hv Hnp.
    rewrite (dispatchToMiddleware_inside _ _ _ _ _ _ Hm Hf), Hv. simpl.
    rewrite Hnp, (locatedError_inside _ _ _ _ Hm). reflexivity.
  - intros i s v s1 Hi Hf Hv Hnp.
    rewrite (dispatchToMiddleware_past_end _ _ _ _ _ Hi Hf), Hv. simpl.
    rewrite Hnp, locatedError_outside by lia. reflexivity.
Qed.

Lemma non_promise_response_witness :
  composedMiddleware [woof] (resolving VNull) (resolving VNull) initial
  = (Normal (VPromise 0),
     mkState false []
       [Rejected (VError TypeError
          "Composed middleware #0 'badDog' has returned a value of type 'string' when a Promise was expected")]
       [] [Invoked 0])
  /\ composedMiddleware [] (SyncFn "" (Return VUndefined)) (resolving VNull) initial
     = (Normal (VPromise 0),
        mkState true []
          [Rejected (VError TypeError
             "has returned a value of type 'undefined' when a Promise was expected")]
          [] [Called Next]).
Proof.
  split.
  - apply (proj1 (non_promise_response [woof] (resolving VNull) (resolving VNull))
             0%nat woof initial (VString "woof")
             (mkState false [] [] [] [Invoked 0]));
      reflexivity.
  - apply (proj2 (non_promise_response [] (SyncFn "" (Return VUndefined)) (resolving VNull))
             0%nat initial VUndefined (mkState true [] [] [] [Called Next]));
      solve [reflexivity | simpl; lia].
Defined.

(** ** The empty brigade *)

(** C3. When the brigade's own [next], called by the composed empty
    brigade, returns a promise, the composed brigade returns that very
    promise, in the state [next] left; and [terminate] is not called, then or
    in any later job. *)
Theorem empty_brigade next terminate s p s1 :
  callContinue next terminate Next
    (set_hasTerminated true (set_hasTerminated false s)) = (Normal (VPromise p), s1) ->
  Called Terminate ∉ events s ->
  composedMiddleware [] next terminate s = (Normal (VPromise p), s1)
  /\ forall fuel,
       Called Terminate ∉ events (runMicrotasks [] next terminate fuel s1).
Proof.
  intros Hnext Hev. split.
  - unfold composedMiddleware. simpl. rewrite Hnext. reflexivity.
  - intros fuel.
    assert (H1 : holds terminateNeverCalled s1).
    { pose proof (invoke_holds terminateNeverCalled ResumeContinue noCall next
                    (noCall_holds _)
                    (record (Called Next)
                       (set_hasTerminated true (set_hasTerminated false s)))) as H.
      unfold callContinue in Hnext. rewrite Hnext in H. apply H.
      split; [reflexivity|]. simpl. rewrite not_elem_of_app, not_elem_of_cons.
      split; [exact Hev|]. split; [discriminate|apply not_elem_of_nil]. }
    apply (runMicrotasks_holds [] next terminate terminateNeverCalled).
    + intros b es i [Hb Hes]. split; [exact Hb|].
      rewrite not_elem_of_app, not_elem_of_cons.
      split; [exact Hes|]. split; [discriminate|apply not_elem_of_nil].
    + intros es c [Hb _]. discriminate.
    + exact H1.
Qed.

Lemma empty_brigade_witness :
  composedMiddleware [] (resolving (VObject 1)) (resolving (VObject 2)) initial
  = (Normal (VPromise 0),
     mkState true [] [Fulfilled (VObject 1)] [] [Called Next])
  /\ forall fuel,
       Called Terminate ∉
         events (runMicrotasks [] (resolving (VObject 1)) (resolving (VObject 2)) fuel
                   (mkState true [] [Fulfilled (VObject 1)] [] [Called Next])).
Proof.
  apply (empty_brigade (resolving (VObject 1)) (resolving (VObject 2)) initial 0%nat
           (mkState true [] [Fulfilled (VObject 1)] [] [Called Next])).
  - reflexivity.
  - simpl. apply not_elem_of_nil.
Defined.

(** ** [callMiddleware] *)

Lemma runMicrotasks_idle brigade next terminate fuel s :
  microtasks s = [] -> runMicrotasks brigade next terminate fuel s = s.
Proof. intros H. destruct fuel; simpl; [reflexivity|]. rewrite H. reflexivity. Qed.

Lemma runMicrotasks_step brigade next terminate fuel t ts s :
  microtasks s = t :: ts ->
  runMicrotasks brigade next terminate (S fuel) s
  = runMicrotasks brigade next terminate fuel
      (runTask brigade next terminate t (set_microtasks ts s)).
Proof. intros H. simpl. rewrite H. reflexivity. Qed.

Lemma strictEq_true a b : strictEq a b = true <-> a = b.
Proof. unfold strictEq. apply bool_decide_eq_true. Qed.

Lemma strictNe_true a b : strictNe a b = true <-> a <> b.
Proof.
  unfold strictNe, strictEq. rewrite negb_true_iff. apply bool_decide_eq_false.
Qed.

Lemma strictNe_false a b : strictNe a b = false <-> a = b.
Proof.
  unfold strictNe, strictEq. rewrite negb_false_iff. apply bool_decide_eq_true.
Qed.

(** The job of a [then] callback that returned a promise rejected with [err]:
    two jobs later the promise of [then] is rejected with [err]. *)
Lemma then_rejects brigade next terminate response result q err s fuel :
  promises s !! q = Some (Pending []) ->
  microtasks s = [(ThenCheckResult response q, Normal result)] ->
  checkResult response result (set_microtasks [] s)
  = promiseReject err (set_microtasks [] s) ->
  (2 <= fuel)%nat ->
  promises (runMicrotasks brigade next terminate fuel s) !! q = Some (Rejected err).
Proof.
  intros Hq Hts Hcheck Hfuel.
  destruct fuel as [|[|fuel]]; [lia|lia|].
  rewrite (runMicrotasks_step _ _ _ _ _ _ _ Hts).
  pose proof (lookup_lt_Some _ _ _ Hq) as Hlt.
  assert (Hstep : runTask brigade next terminate
                    (ThenCheckResult response q, Normal result) (set_microtasks [] s)
                  = mkState (hasTerminated s) (receivedCalls s)
                      (promises s ++ [Rejected err]) [(Adopt q, Thrown err)] (events s)).
  { simpl. rewrite Hcheck. simpl.
    destruct (decide (length (promises s) = q)) as [Heq|_]; [lia|].
    unfold subscribe. simpl.
    rewrite list_lookup_middle by reflexivity. reflexivity. }
  rewrite Hstep.
  rewrite (runMicrotasks_step _ _ _ _ (Adopt q, Thrown err) []) by reflexivity.
  rewrite runMicrotasks_idle.
  - simpl. unfold settle. simpl.
    rewrite lookup_app_l, Hq by exact Hlt. simpl.
    apply list_lookup_insert_eq. rewrite length_app. lia.
  - simpl. unfold settle. simpl.
    rewrite lookup_app_l, Hq by exact Hlt. reflexivity.
Qed.

(** What the job of the callback given to [then] does to the promise [q]
    that [then] returned, [result] being what the promise of the middleware
    was fulfilled with. *)
Lemma then_job_result brigade next terminate response result q s fuel :
  promises s !! q = Some (Pending []) ->
  microtasks s = [(ThenCheckResult response q, Normal result)] ->
  hasCallableThen result = false ->
  (2 <= fuel)%nat ->
  let s' := runMicrotasks brigade next terminate fuel s in
  (response <> VUndefined -> result <> response ->
   promises s' !! q
   = Some (Rejected (VError Error
       ("Middleware brigade terminated with an unexpected response value indicating " +:+
        "that a middleware function failed to call next or terminate, or failed to " +:+
        "incorporate the resulting value into its own return value"))))
  /\ (response = VUndefined -> result = VUndefined ->
      promises s' !! q
      = Some (Rejected (VError Error "Middleware brigade result cannot be undefined")))
  /\ ((response <> VUndefined /\ result = response)
      \/ (response = VUndefined /\ result <> VUndefined) ->
      promises s' !! q = Some (Fulfilled result)).
Proof.
  intros Hq Hts Hthen Hfuel s'. subst s'. repeat split.
  - intros Hr Hne. apply (then_rejects _ _ _ response result); auto.
    unfold checkResult.
    rewrite (proj2 (strictNe_true response VUndefined) Hr).
    rewrite (proj2 (strictNe_true result response) Hne). reflexivity.
  - intros -> ->. apply (then_rejects _ _ _ VUndefined VUndefined); auto.
  - intros Hok.
    assert (Hcheck : checkResult response result (set_microtasks [] s)
                     = (result, set_microtasks [] s)).
    { unfold checkResult. destruct Hok as [[Hr ->]|[-> Hne]].
      - rewrite (proj2 (strictNe_false response response) eq_refl), andb_false_r.
        destruct (strictEq response VUndefined) eqn:E; [|reflexivity].
        apply strictEq_true in E. contradiction.
      - simpl. destruct (strictEq result VUndefined) eqn:E; [|reflexivity].
        apply strictEq_true in E. contradiction. }
    destruct fuel as [|fuel]; [lia|].
    rewrite (runMicrotasks_step _ _ _ _ _ _ _ Hts). simpl runTask.
    rewrite Hcheck.
    assert (Hres : resolvePromise q result (set_microtasks [] s)
                   = set_microtasks []
                       (set_promises (<[q := Fulfilled result]> (promises s)) s)).
    { destruct result; try discriminate; simpl; unfold settle; simpl;
        rewrite Hq; reflexivity. }
    rewrite Hres, runMicrotasks_idle by reflexivity. simpl.
    apply list_lookup_insert_eq. eapply lookup_lt_Some, Hq.
Qed.

Lemma validRequest_true request :
  typeOf request = "object" ->
  request <> VNull ->
  bool_decide (typeOf request = "object") && strictNe request VNull = true.
Proof.
  intros Ht Hn.
  rewrite (bool_decide_eq_true_2 _ Ht), (proj2 (strictNe_true _ _) Hn). reflexivity.
Qed.

Lemma validResponse_true response :
  response = VUndefined \/ (typeOf response = "object" /\ response <> VNull) ->
  strictEq response VUndefined
  || bool_decide (typeOf response = "object") && strictNe response VNull = true.
Proof.
  intros [->|[Ht Hn]]; [reflexivity|].
  rewrite (bool_decide_eq_true_2 _ Ht), (proj2 (strictNe_true _ _) Hn).
  apply orb_true_r.
Qed.

(** [callMiddleware] past its checks, on a middleware that returns a
    promise: the callback is attached to that promise. *)
Lemma callMiddleware_registers
    (call : ContinueMiddleware -> ContinueMiddleware -> state -> result * state)
    request response s p s' :
  typeOf request = "object" ->
  request <> VNull ->
  response = VUndefined \/ (typeOf response = "object" /\ response <> VNull) ->
  call (continueFn response) (continueFn response) s = (Normal (VPromise p), s') ->
  callMiddleware (Callable call) request response s
  = (Normal (VPromise (length (promises s'))),
     subscribe p (ThenCheckResult response (length (promises s')))
       (set_promises (promises s' ++ [Pending []]) s')).
Proof.
  intros Hobj Hnull Hvalid Hm. unfold callMiddleware.
  rewrite (validRequest_true _ Hobj Hnull), (validResponse_true _ Hvalid).
  cbn [negb]. rewrite Hm. reflexivity.
Qed.



Example callMiddleware_sentinel :
  let '(r, s) := callAndRun [asyncForwarder] (VObject 0) (VObject 5) 10 in
  r = Normal (VPromise 2) /\ promises s !! 2%nat = Some (Fulfilled (VObject 5))
  /\ microtasks s = [].
Proof. repeat split. Qed.

Example callMiddleware_chain_broken :
  let '(r, s) := callAndRun [asyncDropper; asyncForwarder] (VObject 0) (VObject 5) 10 in
  r = Normal (VPromise 3)
  /\ promises s !! 3%nat = Some (Rejected (VError Error unexpectedResponse))
  /\ microtasks s = [].
Proof. repeat split. Qed.

Example callMiddleware_undefined_result :
  let '(r, s) := callAndRun [asyncDropper] (VObject 0) VUndefined 10 in
  r = Normal (VPromise 2)
  /\ promises s !! 2%nat = Some (Rejected (VError Error undefinedResult))
  /\ microtasks s = [].
Proof. repeat split. Qed.

Example callMiddleware_response_not_an_object :
  callAndRun [asyncForwarder] (VObject 0) (VNumber 42) 10
  = (Thrown (VError Error "response must be an object if specified"), initial).
Proof. reflexivity. Qed.

Example callMiddleware_response_null :
  callAndRun [asyncForwarder] (VObject 0) VNull 10
  = (Thrown (VError Error "response must be an object if specified"), initial).
Proof. reflexivity. Qed.

Example callMiddleware_request_not_an_object :
  callAndRun [asyncForwarder] (VNumber 42) (VObject 5) 10
  = (Thrown (VError Error "request must be an object"), initial).
Proof. reflexivity. Qed.

Example callMiddleware_request_null :
  callAndRun [asyncForwarder] VNull (VObject 5) 10
  = (Thrown (VError Error "request must be an object"), initial).
Proof. reflexivity. Qed.

Example callMiddleware_not_a_function :
  callMiddleware NotAFunction (VObject 0) (VObject 5) initial
  = (Thrown (VError Error "Middleware must be a function"), initial).
Proof. reflexivity. Qed.

Example callMiddleware_not_a_promise :
  callMiddleware (Callable (fun _ _ s => (Normal VUndefined, s))) (VObject 0) (VObject 5)
    initial
  = (Thrown (VError TypeError "Cannot read properties of undefined (reading 'then')"),
     initial).
Proof. reflexivity. Qed.

(** ** What a dispatch returns *)

Lemma checkResponse_returns_promise brigade i o :
  exists p, fst (checkResponse brigade i o) = Normal (VPromise p).
Proof.
  destruct o as [[response|err] s]; simpl.
  - destruct (isPromiseLike response) eqn:E.
    + apply isPromiseLike_spec in E as [p ->]. eauto.
    + eauto.
  - eauto.
Qed.

(** Entered with the flag false, a dispatch never throws: it returns a
    promise. *)
Lemma dispatchToMiddleware_returns_promise brigade next terminate rest i s :
  hasTerminated s = false ->
  exists p s', dispatchToMiddleware brigade next terminate rest i s
               = (Normal (VPromise p), s').
Proof.
  intros Hf.
  assert (H : exists o, dispatchToMiddleware brigade next terminate rest i s
                        = checkResponse brigade i o).
  { destruct rest; simpl; rewrite Hf; eauto. }
  destruct H as [o ->].
  destruct (checkResponse_returns_promise brigade i o) as [p Hp].
  destruct (checkResponse brigade i o) as [r s']. simpl in Hp. subst r. eauto.
Qed.

(** ** Calling next again *)

(** C10. In a state where [hasTerminated] is still false (the chain that an
    earlier call of next started has neither passed the end of the brigade
    nor called terminate), the next function of position [i] does not throw,
    however often it was called before: it returns a promise, and what it
    does is to call the middleware at [i + 1] (again). Its outcome is the
    outcome of that call, made with the next and terminate functions of
    position [i + 1] in the state in which next was called (the flag is
    neither looked at further nor set), followed by the check that a promise
    was returned; the call is the first thing that happens. *)
Theorem second_next_is_dispatched brigade next terminate (i : nat) m s :
  brigade !! S i = Some m ->
  hasTerminated s = false ->
  exists p s',
    dispatchNext brigade next terminate i s = (Normal (VPromise p), s')
    /\ checkResponse brigade (S i)
         (invoke (ResumeMiddleware (S i)) (continueFns brigade next terminate (S i)) m
            (record (Invoked (S i)) s))
       = (Normal (VPromise p), s')
    /\ exists es, events s' = events s ++ Invoked (S i) :: es.
Proof.
  intros Hm Hf.
  destruct (dispatchToMiddleware_returns_promise brigade next terminate
              (drop (S i) brigade) (S i) s Hf) as (p & s' & Hd).
  exists p, s'. split; [exact Hd|].
  pose proof (dispatchToMiddleware_inside _ next terminate _ _ _ Hm Hf) as Hin.
  rewrite Hd in Hin. split; [symmetry; exact Hin|].
  pose (P := fun (_ : bool) (es : list event) =>
               exists tl, es = events s ++ Invoked (S i) :: tl).
  assert (HP : holds P s').
  { replace s' with (snd (checkResponse brigade (S i)
                            (invoke (ResumeMiddleware (S i))
                               (continueFns brigade next terminate (S i)) m
                               (record (Invoked (S i)) s))))
      by (rewrite <- Hin; reflexivity).
    apply checkResponse_holds, invoke_holds.
    - intros c s0. apply continueFns_holds.
      + intros b es j [tl ->]. exists (tl ++ [Invoked j]).
        rewrite <- app_assoc. reflexivity.
      + intros es c' [tl ->]. exists (tl ++ [Called c']).
        rewrite <- app_assoc. reflexivity.
    - exists []. reflexivity. }
  exact HP.
Qed.

Lemma second_next_is_dispatched_witness :
  let s1 := snd (dispatchNext [nextTwice; later] (resolving VNull) (resolving VNull) 0
                   (record (Invoked 0) initial)) in
  events s1 = [Invoked 0; Invoked 1]
  /\ exists p s',
       dispatchNext [nextTwice; later] (resolving VNull) (resolving VNull) 0 s1
       = (Normal (VPromise p), s')
       /\ checkResponse [nextTwice; later] 1
            (invoke (ResumeMiddleware 1)
               (continueFns [nextTwice; later] (resolving VNull) (resolving VNull) 1)
               later (record (Invoked 1) s1))
          = (Normal (VPromise p), s')
       /\ exists es, events s' = events s1 ++ Invoked 1 :: es.
Proof.
  intros s1. split; [reflexivity|].
  apply (second_next_is_dispatched [nextTwice; later] (resolving VNull) (resolving VNull)
           0 later s1); reflexivity.
Defined.

(** ** The termination flag *)

Lemma calledCount_app es es' :
  calledCount (es ++ es') = (calledCount es + calledCount es')%nat.
Proof. unfold calledCount. rewrite List.filter_app, length_app. reflexivity. Qed.

Lemma flagCounts_invoked b es i : flagCounts b es -> flagCounts b (es ++ [Invoked i]).
Proof.
  unfold flagCounts. rewrite calledCount_app. intros ->.
  replace (calledCount [Invoked i]) with 0%nat by reflexivity. apply Nat.add_0_r.
Qed.

Lemma flagCounts_called es c : flagCounts false es -> flagCounts true (es ++ [Called c]).
Proof. unfold flagCounts. rewrite calledCount_app. simpl. intros ->. reflexivity. Qed.

(** C1, as stated, fails: the middleware at position [0] calls next twice
    (the middleware at [1] is called twice), both calls return, and
    [hasTerminated] is still false when the composed brigade returns. *)
Lemma flag_after_next_counterexample :
  exists k,
    composedMiddleware [nextTwice; later] (resolving VNull) (resolving VNull) initial
    = (Normal (VPromise 1),
       mkState false [] [Pending []; Pending []]
         [(ResumeMiddleware 1 0 k, Normal VUndefined);
          (ResumeMiddleware 1 1 k, Normal VUndefined)]
         [Invoked 0; Invoked 1; Invoked 1]).
Proof. eexists. reflexivity. Qed.

(** C1, amended. In every invocation of a composed brigade, when it returns
    and after any number of jobs: [hasTerminated] is true exactly when one
    of the brigade's own continue functions has been called, which happens
    at most once (the dispatch passed the end of the brigade and called
    [next], or a terminate function was accepted and called [terminate]);
    a call of a next function at a position inside the brigade does not set
    it. The flag never goes back to false, and once it is true the next and
    the terminate function of every position throw the error that names the
    position and the function called, leaving the state as it is. *)
Theorem termination_flag brigade next terminate s fuel :
  calledCount (events s) = 0%nat ->
  let s1 := snd (composedMiddleware brigade next terminate s) in
  let s2 := runMicrotasks brigade next terminate fuel s1 in
  calledCount (events s1) = (if hasTerminated s1 then 1 else 0)%nat
  /\ calledCount (events s2) = (if hasTerminated s2 then 1 else 0)%nat
  /\ (hasTerminated s1 = true -> hasTerminated s2 = true)
  /\ forall (i : nat) m s',
       brigade !! i = Some m ->
       hasTerminated s' = true ->
       dispatchNext brigade next terminate i s'
       = (Thrown (VError Error
            (located (Z.of_nat i) (fn_name m) nextAfterTerminated)), s')
       /\ dispatchTerminate brigade next terminate i s'
          = (Thrown (VError Error
               (located (Z.of_nat i) (fn_name m) terminateAfterTerminated)), s').
Proof.
  intros Hfresh s1 s2.
  assert (H1 : holds flagCounts s1).
  { apply dispatchToMiddleware_holds;
      auto using flagCounts_invoked, flagCounts_called. }
  assert (H2 : holds flagCounts s2).
  { apply runMicrotasks_holds;
      auto using flagCounts_invoked, flagCounts_called. }
  split; [exact H1|]. split; [exact H2|]. split.
  - intros Ht. apply (runMicrotasks_holds _ _ _ (fun b _ => b = true)); auto.
  - intros i m s' Hm Ht. split.
    + unfold dispatchNext. rewrite dispatchToMiddleware_terminated by exact Ht.
      replace (Z.of_nat (S i) - 1) with (Z.of_nat i) by lia.
      rewrite (locatedError_inside _ _ _ _ Hm). reflexivity.
    + unfold dispatchTerminate. rewrite Ht, (locatedError_inside _ _ _ _ Hm).
      reflexivity.
Qed.

Lemma termination_flag_witness :
  let s1 := snd (composedMiddleware [forwarder; terminateTwice]
                   (resolving VNull) (resolving VNull) initial) in
  calledCount (events s1) = 1%nat /\ hasTerminated s1 = true.
Proof.
  intros s1.
  pose proof (termination_flag [forwarder; terminateTwice]
                (resolving VNull) (resolving VNull) initial 0 eq_refl) as H.
  split; [|reflexivity]. exact (proj1 H).
Defined.

(** ** Errors of middleware and of continue functions *)





(** ** Nesting of the middleware of a brigade *)

Lemma runMicrotasks_add brigade next terminate n m : forall s,
  runMicrotasks brigade next terminate (n + m) s
  = runMicrotasks brigade next terminate m (runMicrotasks brigade next terminate n s).
Proof.
  induction n as [|n IH]; intros s; simpl; [reflexivity|].
  destruct (microtasks s) as [|t ts] eqn:E.
  - rewrite runMicrotasks_idle by exact E. reflexivity.
  - apply IH.
Qed.

Lemma promiseResolve_plain v s :
  hasCallableThen v = false ->
  promiseResolve v s
  = (VPromise (length (promises s)), set_promises (promises s ++ [Fulfilled v]) s).
Proof. destruct v; try discriminate; reflexivity. Qed.

Lemma resolvePromise_plain q v s :
  hasCallableThen v = false -> resolvePromise q v s = settle q (Normal v) s.
Proof. destruct v; try discriminate; reflexivity. Qed.

Section Nesting.

Variable brigade : Brigade.
Variable terminate : ContinueMiddleware.
Variable v : value.
Hypothesis v_plain : hasCallableThen v = false.

Lemma subscribe_chain rc i marks f rcalls ps ts es :
  subscribe (length ps) rc
    (mkState f rcalls (ps ++ chain v [] i (length ps) marks)
       (ts ++ parked v [] i (length ps) marks) es)
  = mkState f rcalls (ps ++ chain v [rc] i (length ps) marks)
      (ts ++ parked v [rc] i (length ps) marks) es.
Proof.
  unfold subscribe. destruct marks as [|[before after] marks]; simpl.
  - rewrite list_lookup_middle by reflexivity. unfold enqueue. simpl.
    rewrite app_nil_r. reflexivity.
  - rewrite list_lookup_middle by reflexivity. unfold set_promises. simpl.
    rewrite insert_app_r_alt, Nat.sub_diag by lia. reflexivity.
Qed.

(** The dispatch through recorders, up to the first job: every recorder
    pushes its first mark, calls next and waits. *)
Lemma dispatch_recorders marks : forall i s,
  hasTerminated s = false ->
  dispatchToMiddleware brigade (resolving v) terminate (recorders marks) i s
  = (Normal (VPromise (length (promises s))),
     mkState true
       (receivedCalls s ++ map fst marks)
       (promises s ++ chain v [] i (length (promises s)) marks)
       (microtasks s ++ parked v [] i (length (promises s)) marks)
       (events s ++ map Invoked (seq i (length marks)) ++ [Called Next])).
Proof.
  induction marks as [|[before after] marks IH]; intros i s Hf.
  - simpl. rewrite Hf. unfold callContinue. simpl.
    rewrite promiseResolve_plain by exact v_plain. simpl.
    rewrite !app_nil_r. reflexivity.
  - cbn [recorders map dispatchToMiddleware fst snd]. rewrite Hf.
    fold (recorders marks).
    unfold recorder at 1. cbn [invoke newPromise exec].
    rewrite IH by exact Hf.
    cbn [orThrow exec finishAsync awaitValue promises length receivedCalls microtasks events hasTerminated push record set_promises set_receivedCalls set_events].
    rewrite subscribe_chain.
    rewrite length_app. cbn [length]. rewrite Nat.add_1_r.
    cbn [checkResponse isPromiseLike typeOf hasCallableThen strictNe strictEq].
    rewrite <- !app_assoc. reflexivity.
Qed.

(** The jobs after it: the recorders go on from the last to the first,
    each pushing its second mark and fulfilling its promise, which wakes
    the recorder before it. *)
Lemma run_chain marks : forall rs i ps f rcalls es,
  runMicrotasks brigade (resolving v) terminate (length marks)
    (mkState f rcalls (ps ++ chain v rs i (length ps) marks)
       (parked v rs i (length ps) marks) es)
  = mkState f (rcalls ++ rev (map snd marks))
      (ps ++ replicate (S (length marks)) (Fulfilled v))
      (map (fun rc => (rc, Normal v)) rs) es.
Proof.
  induction marks as [|[before after] marks IH]; intros rs i ps f rcalls es.
  - simpl. rewrite app_nil_r. reflexivity.
  - replace (length ((before, after) :: marks)) with (length marks + 1)%nat
      by (simpl; lia).
    rewrite runMicrotasks_add.
    cbn [chain parked].
    replace (ps ++ Pending rs
               :: chain v [ResumeMiddleware i (length ps) (afterAwait after)]
                    (S i) (S (length ps)) marks)
      with ((ps ++ [Pending rs])
              ++ chain v [ResumeMiddleware i (length ps) (afterAwait after)]
                   (S i) (length (ps ++ [Pending rs])) marks)
      by (rewrite length_app, Nat.add_1_r, <- app_assoc; reflexivity).
    replace (S (length ps)) with (length (ps ++ [Pending rs]))
      by (rewrite length_app, Nat.add_1_r; reflexivity).
    rewrite IH.
    cbn [runMicrotasks map microtasks runTask afterAwait orThrow exec finishAsync
           set_microtasks push set_receivedCalls hasTerminated receivedCalls
           promises events].
    rewrite resolvePromise_plain by exact v_plain.
    unfold settle. rewrite <- (app_assoc ps).
    cbn [promises microtasks set_promises set_microtasks push set_receivedCalls
           hasTerminated receivedCalls events settled app].
    rewrite list_lookup_middle by reflexivity.
    rewrite insert_app_r_alt, Nat.sub_diag by lia.
    replace (S (length marks + 1)) with (S (S (length marks))) by lia.
    unfold set_microtasks, set_promises, push, set_receivedCalls. simpl.
    rewrite <- app_assoc. reflexivity.
Qed.

End Nesting.

(** The whole run of a brigade of recorders whose [next] resolves to [v]. *)
Lemma recorders_run marks v terminate s fuel :
  hasCallableThen v = false ->
  microtasks s = [] ->
  (length marks <= fuel)%nat ->
  exists s1,
    composedMiddleware (recorders marks) (resolving v) terminate s
    = (Normal (VPromise (length (promises s))), s1)
    /\ runMicrotasks (recorders marks) (resolving v) terminate fuel s1
       = mkState true
           (receivedCalls s ++ map fst marks ++ rev (map snd marks))
           (promises s ++ replicate (S (length marks)) (Fulfilled v))
           []
           (events s ++ map Invoked (seq 0 (length marks)) ++ [Called Next]).
Proof.
  intros Hv Hq Hfuel. unfold composedMiddleware.
  rewrite (dispatch_recorders (recorders marks) terminate v Hv marks 0
             (set_hasTerminated false s) eq_refl).
  eexists. split; [reflexivity|].
  cbn [promises microtasks receivedCalls events set_hasTerminated].
  rewrite Hq. cbn [app].
  replace fuel with (length marks + (fuel - length marks))%nat by lia.
  rewrite runMicrotasks_add, (run_chain _ _ _ Hv).
  rewrite runMicrotasks_idle by reflexivity.
  rewrite <- app_assoc. reflexivity.
Qed.

Lemma indexed_recorders N :
  indexed N
  = recorders (map (fun i => (VNumber (Z.of_nat i), VNumber (Z.of_nat i))) (seq 0 N)).
Proof. unfold indexed, recorders. rewrite map_map. reflexivity. Qed.

(** C2. A brigade of [N] middleware that each push their index, await next
    and push their index again, composed and called with a [next] that
    resolves to [v], returns a promise; once the jobs have run, the request
    has received the indices [0 .. N-1] followed by [N-1 .. 0], the promise
    is fulfilled with [v] and no job is left. *)
Theorem nesting_order (N : nat) v terminate s fuel :
  hasCallableThen v = false ->
  microtasks s = [] ->
  (N <= fuel)%nat ->
  exists s1,
    composedMiddleware (indexed N) (resolving v) terminate s
    = (Normal (VPromise (length (promises s))), s1)
    /\ let s2 := runMicrotasks (indexed N) (resolving v) terminate fuel s1 in
       receivedCalls s2
       = receivedCalls s
         ++ map (fun i => VNumber (Z.of_nat i)) (seq 0 N ++ rev (seq 0 N))
       /\ promises s2 !! length (promises s) = Some (Fulfilled v)
       /\ microtasks s2 = [].
Proof.
  intros Hv Hq Hfuel. rewrite indexed_recorders.
  set (marks := map (fun i => (VNumber (Z.of_nat i), VNumber (Z.of_nat i))) (seq 0 N)).
  assert (Hlen : length marks = N).
  { unfold marks. rewrite length_map, length_seq. reflexivity. }
  destruct (recorders_run marks v terminate s fuel Hv Hq) as (s1 & Hs1 & Hrun);
    [lia|].
  exists s1. split; [exact Hs1|]. cbv zeta. rewrite Hrun. simpl.
  split; [|split; [|reflexivity]].
  - f_equal. rewrite map_app, map_rev. unfold marks. rewrite !map_map. reflexivity.
  - apply list_lookup_middle. reflexivity.
Qed.

Lemma nesting_order_witness :
  exists s1,
    composedMiddleware (indexed 3) (resolving (VObject 0)) (resolving (VObject 0)) initial
    = (Normal (VPromise 0), s1)
    /\ let s2 := runMicrotasks (indexed 3) (resolving (VObject 0))
                   (resolving (VObject 0)) 3 s1 in
       receivedCalls s2
       = [VNumber 0; VNumber 1; VNumber 2; VNumber 2; VNumber 1; VNumber 0]
       /\ promises s2 !! 0%nat = Some (Fulfilled (VObject 0))
       /\ microtasks s2 = [].
Proof.
  apply (nesting_order 3 (VObject 0) (resolving (VObject 0)) initial 3);
    solve [reflexivity | lia].
Defined.

(** ** The cases of the test suite *)

Example test_deep_brigade_order :
  let '(r, s) := composeAndRun deepBrigade (resolving (VObject 0)) (resolving (VObject 0)) 10 in
  r = Normal (VPromise 0)
  /\ receivedCalls s
     = [VNumber 1; VNumber 2; VNumber 3; VNumber 4; VNumber 5; VNumber 6]
  /\ promises s !! 0%nat = Some (Fulfilled (VObject 0)).
Proof. repeat split. Qed.

Example test_empty_brigade_next_throws :
  composeAndRun [] throwing (resolving (VObject 0)) 10
  = (Normal (VPromise 0),
     mkState true [] [Rejected (VError Error "test")] [] [Called Next]).
Proof. reflexivity. Qed.

Example test_terminate_at_the_end :
  let '(r, s) := composeAndRun (deepBrigade ++ [terminator])
                   (resolving (VObject 0)) (resolving (VObject 1)) 10 in
  r = Normal (VPromise 0)
  /\ promises s !! 0%nat = Some (Fulfilled (VObject 1))
  /\ events s = [Invoked 0; Invoked 1; Invoked 2; Invoked 3; Called Terminate].
Proof. repeat split. Qed.

Example test_terminate_twice_at_the_beginning :
  let '(r, s) := composeAndRun [terminateTwice; forwarder]
                   (resolving (VObject 0)) (resolving (VObject 0)) 10 in
  r = Normal (VPromise 1)
  /\ promises s !! 1%nat
     = Some (Rejected (VError Error
         (located 0 "badDog" terminateAfterTerminated))).
Proof. repeat split. Qed.

Example test_next_twice_at_the_beginning :
  let '(r, s) := composeAndRun [nextTwice; forwarder]
                   (resolving (VObject 0)) (resolving (VObject 0)) 10 in
  r = Normal (VPromise 1)
  /\ promises s !! 1%nat
     = Some (Rejected (VError Error (located 0 "badDog" nextAfterTerminated))).
Proof. repeat split. Qed.

Example test_next_twice_at_the_end :
  let '(r, s) := composeAndRun [forwarder; nextTwice]
                   (resolving (VObject 0)) (resolving (VObject 0)) 10 in
  r = Normal (VPromise 1)
  /\ promises s !! 1%nat
     = Some (Rejected (VError Error (located 1 "badDog" nextAfterTerminated))).
Proof. repeat split. Qed.

Example test_terminate_after_next :
  let '(r, s) := composeAndRun [nextThenTerminate]
                   (resolving (VObject 0)) (resolving (VObject 0)) 10 in
  r = Normal (VPromise 0)
  /\ promises s !! 0%nat
     = Some (Rejected (VError Error
         (located 0 "badDog" terminateAfterTerminated))).
Proof. repeat split. Qed.

Example test_next_after_terminate :
  let '(r, s) := composeAndRun [terminateThenNext]
                   (resolving (VObject 0)) (resolving (VObject 0)) 10 in
  r = Normal (VPromise 0)
  /\ promises s !! 0%nat
     = Some (Rejected (VError Error (located 0 "badDog" nextAfterTerminated))).
Proof. repeat split. Qed.

Example test_terminate_throws :
  let '(r, s) := composeAndRun (deepBrigade ++ [terminator])
                   (resolving (VObject 0)) throwing 10 in
  r = Normal (VPromise 0)
  /\ promises s !! 0%nat = Some (Rejected (VError Error "test"))
  /\ receivedCalls s = [VNumber 1; VNumber 2; VNumber 3].
Proof. repeat split. Qed.

Example test_reject_on_errors_in_middleware :
  let '(r, s) := composeAndRun [asyncForwarder; recorder (VNumber 1) (VNumber 2); thrower]
                   (resolving (VObject 0)) (resolving (VObject 0)) 10 in
  r = Normal (VPromise 0)
  /\ promises s !! 0%nat = Some (Rejected (VError Error "test"))
  /\ receivedCalls s = [VNumber 1]
  /\ microtasks s = [].
Proof. repeat split. Qed.

(** The middleware at [0] calls next twice while the one at [1] is still
    waiting: nothing throws at the second call, the middleware at [1] runs
    twice, and it is its second run that meets the flag, so that the error
    names position [1]. *)
Example next_twice_before_the_end :
  let '(r, s) := composeAndRun [nextTwice; later]
                   (resolving (VObject 0)) (resolving (VObject 0)) 10 in
  r = Normal (VPromise 1)
  /\ events s = [Invoked 0; Invoked 1; Invoked 1; Called Next]
  /\ promises s !! 1%nat
     = Some (Rejected (VError Error (located 1 "" nextAfterTerminated))).
Proof. repeat split. Qed.

(** * Further properties of the dispatcher *)

(** ** After the brigade has terminated *)

(** As [Preservation], for a property that need only survive the call of a
    middleware while the flag is false: the dispatch records a call of a
    middleware only after it has found the flag false. *)
Section Guarded.

Variable brigade : Brigade.
Variables next terminate : ContinueMiddleware.
Variable P : bool -> list event -> Prop.

Hypothesis P_invoked : forall es i, P false es -> P false (es ++ [Invoked i]).
Hypothesis P_called : forall es c, P false es -> P true (es ++ [Called c]).

Lemma callContinue_keeps c s :
  hasTerminated s = false -> holds P s ->
  holds P (snd (callContinue next terminate c (set_hasTerminated true s))).
Proof.
  intros Hf Hs. apply invoke_holds; [apply noCall_holds|].
  unfold holds in *. simpl. rewrite Hf in Hs. auto.
Qed.

Lemma dispatchTerminate_keeps i s :
  holds P s -> holds P (snd (dispatchTerminate brigade next terminate i s)).
Proof.
  intros Hs. unfold dispatchTerminate.
  destruct (hasTerminated s) eqn:Hf; [exact Hs|].
  apply callContinue_keeps; auto.
Qed.

Lemma dispatchToMiddleware_keeps rest : forall i s,
  holds P s -> holds P (snd (dispatchToMiddleware brigade next terminate rest i s)).
Proof.
  induction rest as [|m rest IH]; intros i s Hs; simpl;
    (destruct (hasTerminated s) eqn:Hf; [exact Hs|]);
    apply checkResponse_holds.
  - apply callContinue_keeps; auto.
  - apply invoke_holds.
    + intros [] s' Hs'; [apply IH|apply dispatchTerminate_keeps]; auto.
    + unfold holds in *. simpl. rewrite Hf in *. apply P_invoked, Hs.
Qed.

Lemma continueFns_keeps i c s :
  holds P s -> holds P (snd (continueFns brigade next terminate i c s)).
Proof.
  destruct c; [apply dispatchToMiddleware_keeps|apply dispatchTerminate_keeps].
Qed.

Lemma runTask_keeps t s :
  holds P s -> holds P (runTask brigade next terminate t s).
Proof.
  intros Hs. destruct t as [[i q k|q k|q|response q] r]; simpl.
  - apply finishAsync_holds, exec_holds; auto using continueFns_keeps.
  - apply finishAsync_holds, exec_holds; auto using noCall_holds.
  - eapply holds_ctrl; [apply ctrl_settle|done].
  - destruct r as [result|e].
    + destruct (checkResult response result s) as [v s'] eqn:E.
      eapply holds_ctrl; [apply ctrl_resolvePromise|].
      revert E. unfold checkResult.
      repeat case_match; intros [= <- <-]; auto.
    + eapply holds_ctrl; [apply ctrl_settle|done].
Qed.

Lemma runMicrotasks_keeps fuel : forall s,
  holds P s -> holds P (runMicrotasks brigade next terminate fuel s).
Proof.
  induction fuel as [|fuel IH]; intros s Hs; simpl; [done|].
  destruct (microtasks s) as [|t ts] eqn:E; [done|].
  apply IH, runTask_keeps. exact Hs.
Qed.

End Guarded.

Lemma ctrl_frozen brigade next terminate s :
  hasTerminated s = true ->
  (forall i c,
     ctrl (snd (continueFns brigade next terminate i c s)) = ctrl s)
  /\ forall fuel, ctrl (runMicrotasks brigade next terminate fuel s) = ctrl s.
Proof.
  intros Ht.
  pose (P := fun (b : bool) (es : list event) => b = true /\ es = events s).
  assert (HP : holds P s) by (split; [exact Ht|reflexivity]).
  assert (Hctrl : forall s', holds P s' -> ctrl s' = ctrl s).
  { intros s' [Hb He]. unfold ctrl. rewrite Hb, He, Ht. reflexivity. }
  split.
  - intros i c. apply Hctrl, continueFns_keeps; auto; intros es ? [? _]; discriminate.
  - intros fuel. apply Hctrl, runMicrotasks_keeps; auto; intros es ? [? _]; discriminate.
Qed.

(** X1. Once [hasTerminated] is true the dispatcher does nothing more:
    whatever continue function of whatever position is called, and whatever
    jobs run, no middleware is called, neither [next] nor [terminate] of the
    brigade is called, and the flag stays true. *)
Theorem terminated_is_final brigade next terminate s :
  hasTerminated s = true ->
  (forall i c,
     ctrl (snd (continueFns brigade next terminate i c s)) = ctrl s)
  /\ forall fuel, ctrl (runMicrotasks brigade next terminate fuel s) = ctrl s.
Proof. apply ctrl_frozen. Qed.

Lemma terminated_is_final_witness :
  let s := snd (composedMiddleware [nextTwice; later] (resolving VNull) (resolving VNull)
                  initial) in
  ctrl (runMicrotasks [nextTwice; later] (resolving VNull) (resolving VNull) 5
          (set_hasTerminated true s))
  = (true, [Invoked 0; Invoked 1; Invoked 1]).
Proof.
  intros s.
  apply (proj2 (terminated_is_final [nextTwice; later] (resolving VNull) (resolving VNull)
                  (set_hasTerminated true s) eq_refl) 5%nat).
Defined.

Lemma calledLast_invoked es i : calledLast false es -> calledLast false (es ++ [Invoked i]).
Proof.
  unfold calledLast. rewrite calledCount_app. intros ->. reflexivity.
Qed.

Lemma calledLast_called es c : calledLast false es -> calledLast true (es ++ [Called c]).
Proof. unfold calledLast. intros H. eauto. Qed.

(** X2. In an invocation of a composed brigade, when it returns and after
    any number of jobs, a call of the brigade's own [next] or [terminate] is
    the last thing the dispatcher did: the events are calls of middleware,
    followed by that one call exactly when [hasTerminated] is true. *)
Theorem continue_function_is_called_last brigade next terminate s fuel :
  calledCount (events s) = 0%nat ->
  let s1 := snd (composedMiddleware brigade next terminate s) in
  let s2 := runMicrotasks brigade next terminate fuel s1 in
  calledLast (hasTerminated s1) (events s1)
  /\ calledLast (hasTerminated s2) (events s2).
Proof.
  intros Hfresh s1 s2.
  assert (H1 : holds calledLast s1).
  { apply dispatchToMiddleware_keeps;
      auto using calledLast_invoked, calledLast_called. }
  split; [exact H1|].
  apply runMicrotasks_keeps; auto using calledLast_invoked, calledLast_called.
Qed.

Lemma continue_function_is_called_last_witness :
  let s1 := snd (composedMiddleware (deepBrigade ++ [terminator])
                   (resolving VNull) (resolving VNull) initial) in
  calledLast (hasTerminated s1) (events s1).
Proof.
  intros s1.
  exact (proj1 (continue_function_is_called_last (deepBrigade ++ [terminator])
                  (resolving VNull) (resolving VNull) initial 0 eq_refl)).
Defined.

(** ** The order in which the middleware are called *)

Lemma snoc_split {A} (es es1 es2 : list A) (x y : A) :
  es ++ [x] = es1 ++ y :: es2 ->
  (es2 = [] /\ es = es1 /\ x = y)
  \/ exists es2', es2 = es2' ++ [x] /\ es = es1 ++ y :: es2'.
Proof.
  destruct es2 as [|z es2 _] using rev_ind; intros H.
  - left. apply app_inj_tail in H as [-> ->]. auto.
  - right. exists es2.
    change (es ++ [x] = es1 ++ (y :: es2) ++ [z]) in H.
    rewrite app_assoc in H. apply app_inj_tail in H as [-> ->]. auto.
Qed.

Lemma inOrder_called brigade es c :
  inOrder brigade es -> inOrder brigade (es ++ [Called c]).
Proof.
  intros [Hb Ho]. split.
  - intros i Hi. apply Hb. apply elem_of_app in Hi as [Hi|Hi]; [exact Hi|].
    apply list_elem_of_singleton in Hi. discriminate.
  - intros es1 es2 j H. apply snoc_split in H as [(_ & _ & [=])|(es2' & _ & ->)].
    eapply Ho. reflexivity.
Qed.

Lemma inOrder_invoked (brigade : Brigade) es i :
  inOrder brigade es ->
  (i < length brigade)%nat ->
  (i = 0%nat \/ Invoked (i - 1) ∈ es) ->
  inOrder brigade (es ++ [Invoked i]).
Proof.
  intros [Hb Ho] Hi Hprev. split.
  - intros i' Hi'. apply elem_of_app in Hi' as [Hi'|Hi']; [auto|].
    apply list_elem_of_singleton in Hi'. injection Hi' as ->. exact Hi.
  - intros es1 es2 j H. apply snoc_split in H as [(_ & <- & [= ->])|(es2' & _ & ->)].
    + destruct Hprev as [[=]|Hprev]. simpl in Hprev.
      rewrite Nat.sub_0_r in Hprev. exact Hprev.
    + eapply Ho. reflexivity.
Qed.

Lemma resumesInvoked_mono es e rc :
  resumesInvoked es rc -> resumesInvoked (es ++ [e]) rc.
Proof. destruct rc; simpl; auto. intros H. apply elem_of_app. auto. Qed.

Lemma parkedInvoked_mono es e st :
  parkedInvoked es st -> parkedInvoked (es ++ [e]) st.
Proof.
  destruct st; simpl; auto.
  intros H. eapply Forall_impl; [exact H|]. intros rc. apply resumesInvoked_mono.
Qed.

Lemma orderly_record_called brigade c b s :
  orderly brigade s -> orderly brigade (record (Called c) (set_hasTerminated b s)).
Proof.
  intros (Ho & Hp & Ht). split; [|split]; simpl.
  - apply inOrder_called, Ho.
  - eapply Forall_impl; [exact Hp|]. intros st. apply parkedInvoked_mono.
  - eapply Forall_impl; [exact Ht|]. intros t. apply resumesInvoked_mono.
Qed.

Lemma orderly_record_invoked (brigade : Brigade) i s :
  orderly brigade s ->
  (i < length brigade)%nat ->
  (i = 0%nat \/ Invoked (i - 1) ∈ events s) ->
  orderlyAt brigade i (record (Invoked i) s).
Proof.
  intros (Ho & Hp & Ht) Hi Hprev. split; [split; [|split]|]; simpl.
  - apply inOrder_invoked; auto.
  - eapply Forall_impl; [exact Hp|]. intros st. apply parkedInvoked_mono.
  - eapply Forall_impl; [exact Ht|]. intros t. apply resumesInvoked_mono.
  - apply elem_of_app. right. apply list_elem_of_singleton. reflexivity.
Qed.

Lemma orderly_enqueue brigade rc r s :
  orderly brigade s -> resumesInvoked (events s) rc ->
  orderly brigade (enqueue (rc, r) s).
Proof.
  intros (Ho & Hp & Ht) Hrc. split; [|split]; simpl; auto.
  apply Forall_app. split; [exact Ht|]. constructor; [exact Hrc|constructor].
Qed.

Lemma orderly_newPromise brigade st s :
  orderly brigade s -> parkedInvoked (events s) st ->
  orderly brigade (snd (newPromise st s)).
Proof.
  intros (Ho & Hp & Ht) Hst. split; [|split]; simpl; auto.
  apply Forall_app. split; [exact Hp|]. constructor; [exact Hst|constructor].
Qed.

Lemma orderly_settle brigade q r s :
  orderly brigade s -> orderly brigade (settle q r s).
Proof.
  intros (Ho & Hp & Ht). unfold settle.
  destruct (promises s !! q) as [[rs| |]|] eqn:E; try (split; [|split]; assumption).
  split; [|split]; simpl; auto.
  - apply Forall_insert; [exact Hp|]. destruct r; exact I.
  - apply Forall_app. split; [exact Ht|].
    pose proof (Forall_lookup_1 _ _ _ _ Hp E) as Hrs. simpl in Hrs.
    apply Forall_map. eapply Forall_impl; [exact Hrs|]. auto.
Qed.

Lemma orderly_subscribe brigade p rc s :
  orderly brigade s -> resumesInvoked (events s) rc ->
  orderly brigade (subscribe p rc s).
Proof.
  intros Hs Hrc. unfold subscribe.
  destruct (promises s !! p) as [[rs| |]|] eqn:E; auto using orderly_enqueue.
  destruct Hs as (Ho & Hp & Ht). split; [|split]; simpl; auto.
  apply Forall_insert; [exact Hp|]. simpl.
  pose proof (Forall_lookup_1 _ _ _ _ Hp E) as Hrs. simpl in Hrs.
  apply Forall_app. split; [exact Hrs|]. constructor; [exact Hrc|constructor].
Qed.

Lemma orderly_awaitValue brigade v rc s :
  orderly brigade s -> resumesInvoked (events s) rc ->
  orderly brigade (awaitValue v rc s).
Proof. destruct v; simpl; auto using orderly_enqueue, orderly_subscribe. Qed.

Lemma orderly_resolvePromise brigade q v s :
  orderly brigade s -> orderly brigade (resolvePromise q v s).
Proof.
  intros Hs. destruct v; simpl; auto using orderly_settle.
  destruct (decide (ref = q)); [apply orderly_settle, Hs|].
  apply orderly_subscribe; [exact Hs|exact I].
Qed.

Lemma orderly_promiseResolve brigade v s :
  orderly brigade s -> orderly brigade (snd (promiseResolve v s)).
Proof.
  intros Hs. destruct v; simpl; auto;
    apply (orderly_newPromise brigade (Fulfilled _) s Hs I).
Qed.

Lemma orderly_promiseReject brigade e s :
  orderly brigade s -> orderly brigade (snd (promiseReject e s)).
Proof. intros Hs. apply (orderly_newPromise brigade (Rejected e) s Hs I). Qed.

Lemma exec_inv {C A} (I : state -> Prop) (call : C -> state -> result * state)
    (p : prog C A) :
  (forall mark s, I s -> I (push mark s)) ->
  (forall v s, I s -> I (snd (promiseResolve v s))) ->
  (forall e s, I s -> I (snd (promiseReject e s))) ->
  (forall c s, I s -> I (snd (call c s))) ->
  forall s, I s -> I (snd (exec call p s)).
Proof.
  intros Hpush Hres Hrej Hcall.
  induction p as [v|e|c k IH|mark k IH|v k IH|e k IH|a v k IH];
    intros s Hs; simpl; auto.
  - specialize (Hcall c s Hs). destruct (call c s) as [r s']. auto.
  - specialize (Hres v s Hs). destruct (promiseResolve v s) as [p' s']. auto.
  - apply IH. apply (Hrej e s Hs).
Qed.

Lemma events_ctrl s s' : ctrl s' = ctrl s -> events s' = events s.
Proof. unfold ctrl. intros [= _ H]. exact H. Qed.

Lemma orderly_initial brigade : orderly brigade initial.
Proof.
  split; [split|split]; simpl; try constructor.
  - intros i Hi. apply elem_of_nil in Hi. destruct Hi.
  - intros [|e es1] es2 j H; discriminate H.
Qed.

Lemma orderly_set_hasTerminated brigade b s :
  orderly brigade s -> orderly brigade (set_hasTerminated b s).
Proof. intros H. exact H. Qed.

Lemma orderly_set_microtasks brigade t ts s :
  microtasks s = t :: ts ->
  orderly brigade s ->
  orderly brigade (set_microtasks ts s) /\ resumesInvoked (events s) (fst t).
Proof.
  intros E (Ho & Hp & Ht). rewrite E in Ht. inversion Ht as [|? ? Hhd Htl]; subst.
  split; [split; [|split]|]; assumption.
Qed.

Lemma exec_orderly {C A} brigade (call : C -> state -> result * state) (p : prog C A) :
  (forall c s, orderly brigade s -> orderly brigade (snd (call c s))) ->
  forall s, orderly brigade s -> orderly brigade (snd (exec call p s)).
Proof.
  apply exec_inv; auto using orderly_promiseResolve, orderly_promiseReject.
Qed.

Lemma exec_orderlyAt {C A} brigade i (call : C -> state -> result * state)
    (p : prog C A) :
  (forall c s, orderlyAt brigade i s -> orderlyAt brigade i (snd (call c s))) ->
  forall s, orderlyAt brigade i s -> orderlyAt brigade i (snd (exec call p s)).
Proof.
  apply exec_inv.
  - intros mark s H. exact H.
  - intros v s [Ho Hi]. split; [apply orderly_promiseResolve, Ho|].
    rewrite (events_ctrl _ _ (ctrl_promiseResolve v s)). exact Hi.
  - intros e s [Ho Hi]. split; [apply orderly_promiseReject, Ho|exact Hi].
Qed.

Lemma finishAsync_events {C} resume q (o : outcome C unit * state) :
  events (finishAsync resume q o) = events (snd o).
Proof.
  apply events_ctrl. destruct o as [[[v|e]|a v k] s]; simpl;
    auto using ctrl_resolvePromise, ctrl_settle, ctrl_awaitValue.
Qed.

Lemma finishAsync_orderly {C} brigade resume q (o : outcome C unit * state) :
  (forall k, resumesInvoked (events (snd o)) (resume k)) ->
  orderly brigade (snd o) -> orderly brigade (finishAsync resume q o).
Proof.
  destruct o as [[[v|e]|a v k] s]; simpl; intros Hr Hs;
    auto using orderly_resolvePromise, orderly_settle, orderly_awaitValue.
Qed.

Lemma invoke_continue_orderly brigade (f : ContinueMiddleware) s :
  orderly brigade s -> orderly brigade (snd (invoke ResumeContinue noCall f s)).
Proof.
  intros Hs. destruct f as [name body|name body]; simpl.
  - pose proof (exec_orderly brigade noCall body (fun c => match c with end) s Hs) as H.
    destruct (exec noCall body s) as [[r|[]] s']. exact H.
  - apply finishAsync_orderly; [intros k; exact I|].
    apply exec_orderly; [intros []|].
    apply (orderly_newPromise brigade (Pending []) s Hs). constructor.
Qed.

Lemma invoke_middleware_orderly brigade i (call : cont -> state -> result * state)
    (m : Middleware) s :
  (forall c s, orderlyAt brigade i s -> orderlyAt brigade i (snd (call c s))) ->
  orderlyAt brigade i s ->
  orderlyAt brigade i (snd (invoke (ResumeMiddleware i) call m s)).
Proof.
  intros Hcall Hs. destruct m as [name body|name body]; simpl.
  - pose proof (exec_orderlyAt brigade i call body Hcall s Hs) as H.
    destruct (exec call body s) as [[r|[]] s']. exact H.
  - assert (H : orderlyAt brigade i
                  (snd (exec call body (set_promises (promises s ++ [Pending []]) s)))).
    { apply exec_orderlyAt; [exact Hcall|]. destruct Hs as [Ho Hi]. split; [|exact Hi].
      apply (orderly_newPromise brigade (Pending []) s Ho). constructor. }
    destruct H as [Ho Hi]. split.
    + apply finishAsync_orderly; [intros k; exact Hi|exact Ho].
    + rewrite finishAsync_events. exact Hi.
Qed.

Lemma callContinue_orderly brigade next terminate c b s :
  orderly brigade s ->
  orderly brigade (snd (callContinue next terminate c (set_hasTerminated b s))).
Proof.
  intros Hs. apply invoke_continue_orderly, orderly_record_called, Hs.
Qed.

Lemma dispatchTerminate_orderly brigade next terminate i s :
  orderly brigade s ->
  orderly brigade (snd (dispatchTerminate brigade next terminate i s)).
Proof.
  intros Hs. unfold dispatchTerminate. destruct (hasTerminated s); [exact Hs|].
  apply callContinue_orderly, Hs.
Qed.

Lemma checkResponse_orderly brigade i o :
  orderly brigade (snd o) -> orderly brigade (snd (checkResponse brigade i o)).
Proof.
  destruct o as [[response|err] s]; simpl; intros Hs.
  - destruct (isPromiseLike response); [exact Hs|].
    apply (orderly_promiseReject brigade _ s Hs).
  - apply (orderly_promiseReject brigade err s Hs).
Qed.

Lemma dispatchToMiddleware_orderly brigade next terminate rest : forall i s,
  rest = drop i brigade ->
  orderly brigade s ->
  (i = 0%nat \/ Invoked (i - 1) ∈ events s) ->
  orderly brigade (snd (dispatchToMiddleware brigade next terminate rest i s)).
Proof.
  induction rest as [|m rest IH]; intros i s Hrest Hs Hprev; simpl;
    (destruct (hasTerminated s) eqn:Hf; [exact Hs|]);
    apply checkResponse_orderly.
  - apply callContinue_orderly, Hs.
  - assert (Hm : brigade !! i = Some m).
    { rewrite <- (Nat.add_0_r i), <- lookup_drop, <- Hrest. reflexivity. }
    assert (Hrest' : rest = drop (S i) brigade).
    { rewrite (drop_S _ _ _ Hm) in Hrest. injection Hrest as <-. reflexivity. }
    apply invoke_middleware_orderly.
    + intros c s' [Ho Hi]. split.
      * destruct c; [|apply dispatchTerminate_orderly, Ho].
        apply IH; [exact Hrest'|exact Ho|]. right. simpl.
        rewrite Nat.sub_0_r. exact Hi.
      * destruct c.
        -- apply (dispatchToMiddleware_holds brigade next terminate
                    (fun _ es => Invoked i ∈ es)); auto;
             intros; apply elem_of_app; auto.
        -- apply (dispatchTerminate_holds brigade next terminate
                    (fun _ es => Invoked i ∈ es)); auto;
             intros; apply elem_of_app; auto.
    + apply orderly_record_invoked; auto. eapply lookup_lt_Some, Hm.
Qed.

Lemma continueFns_orderlyAt brigade next terminate i c s :
  orderlyAt brigade i s ->
  orderlyAt brigade i (snd (continueFns brigade next terminate i c s)).
Proof.
  intros [Ho Hi]. split.
  - destruct c; simpl; [|apply dispatchTerminate_orderly, Ho].
    apply dispatchToMiddleware_orderly; auto. right. simpl.
    rewrite Nat.sub_0_r. exact Hi.
  - apply (continueFns_holds brigade next terminate (fun _ es => Invoked i ∈ es));
      auto; intros; apply elem_of_app; auto.
Qed.

Lemma runTask_orderly brigade next terminate t s :
  orderly brigade s -> resumesInvoked (events s) (fst t) ->
  orderly brigade (runTask brigade next terminate t s).
Proof.
  intros Hs Ht. destruct t as [[i q k|q k|q|response q] r]; simpl in *.
  - assert (H : orderlyAt brigade i
                  (snd (exec (continueFns brigade next terminate i) (k r) s))).
    { apply exec_orderlyAt; [|split; assumption].
      intros c s'. apply continueFns_orderlyAt. }
    destruct H as [Ho Hi]. apply finishAsync_orderly; [intros k'; exact Hi|exact Ho].
  - apply finishAsync_orderly; [intros k'; exact I|].
    apply exec_orderly; [intros []|exact Hs].
  - apply orderly_settle, Hs.
  - destruct r as [result|e]; [|apply orderly_settle, Hs].
    destruct (checkResult response result s) as [v s'] eqn:E.
    apply orderly_resolvePromise.
    revert E. unfold checkResult.
    repeat case_match; intros [= <- <-]; auto;
      apply (orderly_promiseReject brigade _ s Hs).
Qed.

Lemma runMicrotasks_orderly brigade next terminate fuel : forall s,
  orderly brigade s -> orderly brigade (runMicrotasks brigade next terminate fuel s).
Proof.
  induction fuel as [|fuel IH]; intros s Hs; simpl; [exact Hs|].
  destruct (microtasks s) as [|t ts] eqn:E; [exact Hs|].
  destruct (orderly_set_microtasks brigade t ts s E Hs) as [Hs' Ht].
  apply IH, runTask_orderly; assumption.
Qed.

(** X3. The middleware of a brigade are called in the order of the
    brigade, whatever they do: when the composed brigade returns and after
    any number of jobs, every call of a middleware was at a position that
    holds one, and every call of the middleware at [j + 1] was preceded by a
    call of the one at [j]. *)
Theorem middleware_called_in_order brigade next terminate s fuel :
  orderly brigade s ->
  let s1 := snd (composedMiddleware brigade next terminate s) in
  let s2 := runMicrotasks brigade next terminate fuel s1 in
  inOrder brigade (events s1) /\ inOrder brigade (events s2).
Proof.
  intros Hs s1 s2.
  assert (H1 : orderly brigade s1).
  { apply dispatchToMiddleware_orderly; auto. }
  split; [apply H1|].
  apply (runMicrotasks_orderly brigade next terminate fuel s1 H1).
Qed.

Lemma middleware_called_in_order_witness :
  let s1 := snd (composedMiddleware [nextTwice; later] (resolving VNull) (resolving VNull)
                   initial) in
  inOrder [nextTwice; later] (events s1)
  /\ inOrder [nextTwice; later]
       (events (runMicrotasks [nextTwice; later] (resolving VNull) (resolving VNull) 5 s1)).
Proof.
  apply (middleware_called_in_order [nextTwice; later] (resolving VNull) (resolving VNull)
           initial 5 (orderly_initial _)).
Defined.

(** ** Brigades of middleware that pass on what next returns *)

Lemma forwarder_step brigade next terminate i s :
  brigade !! i = Some forwarder ->
  hasTerminated s = false ->
  dispatchToMiddleware brigade next terminate (drop i brigade) i s
  = dispatchToMiddleware brigade next terminate (drop (S i) brigade) (S i)
      (record (Invoked i) s).
Proof.
  intros Hm Hf. rewrite (dispatchToMiddleware_inside _ _ _ _ _ _ Hm Hf). simpl.
  destruct (dispatchToMiddleware_returns_promise brigade next terminate
              (drop (S i) brigade) (S i) (record (Invoked i) s) Hf) as (p & s' & Hd).
  unfold dispatchNext. rewrite Hd. reflexivity.
Qed.

Lemma forwarders_pass_from brigade next terminate k : forall i s,
  (forall j, (i <= j < i + k)%nat -> brigade !! j = Some forwarder) ->
  hasTerminated s = false ->
  dispatchToMiddleware brigade next terminate (drop i brigade) i s
  = dispatchToMiddleware brigade next terminate (drop (i + k) brigade) (i + k)
      (enteredFrom i k s).
Proof.
  induction k as [|k IH]; intros i s Hfw Hf.
  - rewrite Nat.add_0_r. unfold enteredFrom. simpl. rewrite app_nil_r.
    destruct s; reflexivity.
  - rewrite forwarder_step by (auto with lia).
    rewrite IH by (simpl; auto with lia).
    rewrite <- Nat.add_succ_comm.
    replace (enteredFrom (S i) k (record (Invoked i) s)) with (enteredFrom i (S k) s);
      [reflexivity|].
    unfold enteredFrom, record, set_events. simpl. rewrite <- app_assoc. reflexivity.
Qed.

Lemma composed_through_forwarders brigade next terminate k s :
  (forall j, (j < k)%nat -> brigade !! j = Some forwarder) ->
  composedMiddleware brigade next terminate s
  = dispatchToMiddleware brigade next terminate (drop k brigade) k
      (enteredFrom 0 k (set_hasTerminated false s)).
Proof.
  intros Hfw. unfold composedMiddleware.
  rewrite <- (drop_0 brigade) at 2.
  rewrite (forwarders_pass_from brigade next terminate k 0) by (auto with lia).
  reflexivity.
Qed.

Lemma invoke_continue_ctrl (f : ContinueMiddleware) s :
  ctrl (snd (invoke ResumeContinue noCall f s)) = ctrl s.
Proof.
  pose (P := fun (b : bool) (es : list event) => (b, es) = ctrl s).
  apply (invoke_holds P ResumeContinue noCall f (noCall_holds P) s). reflexivity.
Qed.

Lemma callContinue_ctrl next terminate c s :
  ctrl (snd (callContinue next terminate c s)) = (hasTerminated s, events s ++ [Called c]).
Proof. unfold callContinue. rewrite invoke_continue_ctrl. reflexivity. Qed.

Lemma entered_next k s :
  record (Invoked k) (enteredFrom 0 k s) = enteredFrom 0 (S k) s.
Proof.
  unfold enteredFrom. rewrite seq_S, map_app, app_assoc. reflexivity.
Qed.

(** X4. Every middleware of a brigade passing on what its next function
    returns, the composed brigade calls each of them once, in order, then
    the brigade's own [next], whose promise it returns; nothing else is
    called in the jobs that follow. *)
Theorem pass_through_brigade next terminate k s p s1 :
  callContinue next terminate Next
    (set_hasTerminated true (enteredFrom 0 k (set_hasTerminated false s)))
  = (Normal (VPromise p), s1) ->
  composedMiddleware (replicate k forwarder) next terminate s = (Normal (VPromise p), s1)
  /\ forall fuel,
       ctrl (runMicrotasks (replicate k forwarder) next terminate fuel s1)
       = (true, events s ++ map Invoked (seq 0 k) ++ [Called Next]).
Proof.
  intros Hnext.
  assert (Hc : ctrl s1 = (true, events s ++ map Invoked (seq 0 k) ++ [Called Next])).
  { replace s1 with (snd (callContinue next terminate Next
                            (set_hasTerminated true
                               (enteredFrom 0 k (set_hasTerminated false s)))))
      by (rewrite Hnext; reflexivity).
    rewrite callContinue_ctrl. simpl. rewrite <- app_assoc. reflexivity. }
  split.
  - rewrite (composed_through_forwarders _ _ _ k).
    + rewrite dispatchToMiddleware_past_end.
      * rewrite Hnext. reflexivity.
      * rewrite length_replicate. lia.
      * reflexivity.
    + intros j Hj. apply lookup_replicate_2. exact Hj.
  - intros fuel. rewrite <- Hc. apply ctrl_frozen.
    apply (f_equal fst) in Hc. exact Hc.
Qed.

Lemma pass_through_brigade_witness :
  composedMiddleware (replicate 3 forwarder) (resolving (VObject 1)) throwing initial
  = (Normal (VPromise 0),
     mkState true [] [Fulfilled (VObject 1)] []
       [Invoked 0; Invoked 1; Invoked 2; Called Next])
  /\ forall fuel,
       ctrl (runMicrotasks (replicate 3 forwarder) (resolving (VObject 1)) throwing fuel
               (mkState true [] [Fulfilled (VObject 1)] []
                  [Invoked 0; Invoked 1; Invoked 2; Called Next]))
       = (true, [Invoked 0; Invoked 1; Invoked 2; Called Next]).
Proof.
  apply (pass_through_brigade (resolving (VObject 1)) throwing 3 initial 0%nat
           (mkState true [] [Fulfilled (VObject 1)] []
              [Invoked 0; Invoked 1; Invoked 2; Called Next])).
  reflexivity.
Defined.

(** ** Calling terminate *)

Lemma composed_at_position brigade next terminate k s :
  (forall j, (j < k)%nat -> brigade !! j = Some forwarder) ->
  forall m, brigade !! k = Some m ->
  composedMiddleware brigade next terminate s
  = checkResponse brigade k
      (invoke (ResumeMiddleware k) (continueFns brigade next terminate k) m
         (enteredFrom 0 (S k) (set_hasTerminated false s))).
Proof.
  intros Hfw m Hm. rewrite (composed_through_forwarders _ _ _ k _ Hfw).
  rewrite (dispatchToMiddleware_inside _ _ _ _ _ _ Hm) by reflexivity.
  rewrite entered_next. reflexivity.
Qed.

(** X5. When a middleware calls its terminate function and returns what it
    returns (the middleware before it passing on what next returns), the
    composed brigade returns the promise of the brigade's own [terminate];
    the middleware after it are not called and [next] is not called, then or
    in any later job. *)
Theorem terminate_skips_the_rest brigade next terminate k s p s1 :
  (forall j, (j < k)%nat -> brigade !! j = Some forwarder) ->
  brigade !! k = Some terminator ->
  callContinue next terminate Terminate
    (set_hasTerminated true (enteredFrom 0 (S k) (set_hasTerminated false s)))
  = (Normal (VPromise p), s1) ->
  composedMiddleware brigade next terminate s = (Normal (VPromise p), s1)
  /\ forall fuel,
       ctrl (runMicrotasks brigade next terminate fuel s1)
       = (true, events s ++ map Invoked (seq 0 (S k)) ++ [Called Terminate]).
Proof.
  intros Hfw Hm Hterm.
  assert (Hc : ctrl s1
               = (true, events s ++ map Invoked (seq 0 (S k)) ++ [Called Terminate])).
  { replace s1 with (snd (callContinue next terminate Terminate
                            (set_hasTerminated true
                               (enteredFrom 0 (S k) (set_hasTerminated false s)))))
      by (rewrite Hterm; reflexivity).
    rewrite callContinue_ctrl. cbn [hasTerminated events set_hasTerminated enteredFrom
                                      set_events].
    rewrite <- app_assoc. reflexivity. }
  split.
  - rewrite (composed_at_position _ _ _ k s Hfw terminator Hm).
    cbn [terminator invoke exec continueFns]. unfold dispatchTerminate at 1.
    cbn [hasTerminated enteredFrom set_events set_hasTerminated].
    fold (set_hasTerminated false s). fold (enteredFrom 0 (S k) (set_hasTerminated false s)).
    fold (set_hasTerminated true (enteredFrom 0 (S k) (set_hasTerminated false s))).
    rewrite Hterm. reflexivity.
  - intros fuel. rewrite <- Hc. apply ctrl_frozen.
    apply (f_equal fst) in Hc. exact Hc.
Qed.

Lemma terminate_skips_the_rest_witness :
  composedMiddleware [forwarder; terminator; thrower] throwing (resolving (VObject 1))
    initial
  = (Normal (VPromise 0),
     mkState true [] [Fulfilled (VObject 1)] [] [Invoked 0; Invoked 1; Called Terminate])
  /\ forall fuel,
       ctrl (runMicrotasks [forwarder; terminator; thrower] throwing
               (resolving (VObject 1)) fuel
               (mkState true [] [Fulfilled (VObject 1)] []
                  [Invoked 0; Invoked 1; Called Terminate]))
       = (true, [Invoked 0; Invoked 1; Called Terminate]).
Proof.
  apply (terminate_skips_the_rest [forwarder; terminator; thrower] throwing
           (resolving (VObject 1)) 1 initial 0%nat
           (mkState true [] [Fulfilled (VObject 1)] []
              [Invoked 0; Invoked 1; Called Terminate])).
  - intros [|j] Hj; [reflexivity|lia].
  - reflexivity.
  - reflexivity.
Defined.





(** ** [callMiddleware] on composed brigades *)

(** X8. The synchronous checks of [callMiddleware], in their order. A
    [middleware] that is not a function makes it throw the error that the
    middleware must be a function, whatever [request] and [response] are.
    With a function: a [request] that is not an object, or is null, makes it
    throw the error that the request must be an object, whatever [response]
    is; with a [request] object, a [response] that is supplied and is not an
    object, or is null, makes it throw the error about the response. In the
    three cases the function is not called: the state is as it was. With a
    [request] object and no [response] or one that is an object, no check
    throws, and on a composed brigade [callMiddleware] returns a promise,
    whatever the middleware of the brigade do. *)
Theorem callMiddleware_checks request response s :
  callMiddleware NotAFunction request response s
  = (Thrown (VError Error "Middleware must be a function"), s)
  /\ (typeOf request <> "object" \/ request = VNull ->
      forall call,
        callMiddleware (Callable call) request response s
        = (Thrown (VError Error "request must be an object"), s))
  /\ (typeOf request = "object" -> request <> VNull ->
      response <> VUndefined ->
      typeOf response <> "object" \/ response = VNull ->
      forall call,
        callMiddleware (Callable call) request response s
        = (Thrown (VError Error "response must be an object if specified"), s))
  /\ (typeOf request = "object" -> request <> VNull ->
      response = VUndefined \/ (typeOf response = "object" /\ response <> VNull) ->
      forall brigade, exists q s1,
        callMiddleware (Callable (composedMiddleware brigade)) request response s
        = (Normal (VPromise q), s1)).
Proof.
  split; [reflexivity|]. split; [|split].
  - intros Hbad call. unfold callMiddleware.
    destruct Hbad as [Ht| ->].
    + rewrite (bool_decide_eq_false_2 _ Ht). reflexivity.
    + rewrite andb_false_r. reflexivity.
  - intros Hobj Hnull Hu Hbad call. unfold callMiddleware.
    rewrite (validRequest_true _ Hobj Hnull). cbn [negb].
    replace (strictEq response VUndefined) with false
      by (symmetry; apply bool_decide_eq_false; exact Hu).
    destruct Hbad as [Ht| ->]; [|reflexivity].
    rewrite (bool_decide_eq_false_2 _ Ht). reflexivity.
  - intros Hobj Hnull Hvalid brigade.
    destruct (dispatchToMiddleware_returns_promise brigade (continueFn response)
                (continueFn response) brigade 0 (set_hasTerminated false s) eq_refl)
      as (p & s' & Hd).
    rewrite (callMiddleware_registers _ request response s p s' Hobj Hnull Hvalid Hd).
    eauto.
Qed.

Lemma callMiddleware_checks_witness :
  (forall call,
     callMiddleware (Callable call) (VNumber 42) (VObject 3) initial
     = (Thrown (VError Error "request must be an object"), initial))
  /\ (forall call,
       callMiddleware (Callable call) (VObject 0) VNull initial
       = (Thrown (VError Error "response must be an object if specified"), initial))
  /\ exists q s1,
       callMiddleware (Callable (composedMiddleware [thrower])) (VObject 0) (VObject 3)
         initial
       = (Normal (VPromise q), s1).
Proof.
  assert (Hn : VObject 0 <> VNull) by discriminate.
  split; [|split].
  - apply (proj1 (proj2 (callMiddleware_checks (VNumber 42) (VObject 3) initial))).
    left. discriminate.
  - apply (proj1 (proj2 (proj2 (callMiddleware_checks (VObject 0) VNull initial))));
      [reflexivity|exact Hn|discriminate|right; reflexivity].
  - apply (proj2 (proj2 (proj2 (callMiddleware_checks (VObject 0) (VObject 3) initial))));
      [reflexivity|exact Hn|].
    right. split; [reflexivity|discriminate].
Defined.

Lemma continueFn_call response c b s :
  hasCallableThen response = false ->
  callContinue (continueFn response) (continueFn response) c (set_hasTerminated b s)
  = (Normal (VPromise (length (promises s))),
     mkState b (receivedCalls s) (promises s ++ [Fulfilled response]) (microtasks s)
       (events s ++ [Called c])).
Proof.
  intros Hr. unfold callContinue. destruct c; simpl;
    rewrite promiseResolve_plain by exact Hr; reflexivity.
Qed.

(** What a brigade of [k] forwarders returns to [callMiddleware]. *)
Lemma composed_forwarders_continueFn k response s :
  hasCallableThen response = false ->
  composedMiddleware (replicate k forwarder) (continueFn response) (continueFn response) s
  = (Normal (VPromise (length (promises s))),
     mkState true (receivedCalls s) (promises s ++ [Fulfilled response]) (microtasks s)
       ((events s ++ map Invoked (seq 0 k)) ++ [Called Next])).
Proof.
  intros Hr. rewrite (composed_through_forwarders _ _ _ k).
  - rewrite dispatchToMiddleware_past_end;
      [|rewrite length_replicate; lia|reflexivity].
    rewrite continueFn_call by exact Hr. reflexivity.
  - intros j Hj. apply lookup_replicate_2. exact Hj.
Qed.

(** X9. [callMiddleware], given a [request] object, on a composed brigade
    whose middleware all pass on what next returns: called with a [response]
    object, the promise it returns is fulfilled with that very object;
    called without one, the promise is rejected with the error that the
    result cannot be undefined, since next then resolves to undefined. *)
Theorem callMiddleware_pass_through k request response s fuel :
  typeOf request = "object" ->
  request <> VNull ->
  response = VUndefined \/ (typeOf response = "object" /\ response <> VNull) ->
  hasCallableThen response = false ->
  microtasks s = [] ->
  (2 <= fuel)%nat ->
  exists s1,
    callMiddleware (Callable (composedMiddleware (replicate k forwarder))) request response s
    = (Normal (VPromise (S (length (promises s)))), s1)
    /\ promises (runMicrotasks (replicate k forwarder) (continueFn response)
                   (continueFn response) fuel s1) !! S (length (promises s))
       = Some (if decide (response = VUndefined)
               then Rejected (VError Error "Middleware brigade result cannot be undefined")
               else Fulfilled response).
Proof.
  intros Hobj Hnull Hvalid Hr Hq Hfuel.
  rewrite (callMiddleware_registers _ request response s _ _ Hobj Hnull Hvalid
             (composed_forwarders_continueFn k response s Hr)).
  cbn [promises]. rewrite length_app, Nat.add_1_r. cbn [length].
  eexists. split; [reflexivity|].
  unfold subscribe. cbn [promises set_promises].
  rewrite <- app_assoc. cbn [app].
  rewrite list_lookup_middle by reflexivity.
  unfold enqueue. cbn [microtasks set_microtasks set_promises hasTerminated receivedCalls
                         promises events]. rewrite Hq. cbn [app].
  match goal with
  | |- promises (runMicrotasks ?b ?n ?t fuel ?s0) !! ?q = _ =>
      destruct (then_job_result b n t response response q s0 fuel)
        as (_ & Hundef & Hok)
  end; auto.
  - simpl. rewrite lookup_app_r by lia.
    replace (S (length (promises s)) - length (promises s))%nat with 1%nat by lia.
    reflexivity.
  - destruct (decide (response = VUndefined)) as [->|Hne]; [apply Hundef; reflexivity|].
    apply Hok. left. auto.
Qed.

Lemma callMiddleware_pass_through_witness :
  exists s1,
    callMiddleware (Callable (composedMiddleware (replicate 2 forwarder))) (VObject 0)
      VUndefined initial
    = (Normal (VPromise 1), s1)
    /\ promises (runMicrotasks (replicate 2 forwarder) (continueFn VUndefined)
                   (continueFn VUndefined) 2 s1) !! 1%nat
       = Some (Rejected (VError Error "Middleware brigade result cannot be undefined")).
Proof.
  apply (callMiddleware_pass_through 2 (VObject 0) VUndefined initial 2);
    solve [left; reflexivity | reflexivity | discriminate | lia].
Defined.

Lemma checkResponse_promise brigade i p s :
  checkResponse brigade i (Normal (VPromise p), s) = (Normal (VPromise p), s).
Proof. reflexivity. Qed.

(** What [callMiddleware] gets from a brigade whose first middleware calls
    next and drops what it returns, the others passing it on. *)
Lemma composed_dropper_continueFn k response s :
  hasCallableThen response = false ->
  composedMiddleware (asyncDropper :: replicate k forwarder)
    (continueFn response) (continueFn response) s
  = (Normal (VPromise (length (promises s))),
     mkState true (receivedCalls s)
       (promises s ++ [Fulfilled VUndefined; Fulfilled response]) (microtasks s)
       (events s ++ map Invoked (seq 0 (S k)) ++ [Called Next])).
Proof.
  intros Hr. unfold composedMiddleware.
  set (brigade := asyncDropper :: replicate k forwarder).
  change (dispatchToMiddleware brigade (continueFn response) (continueFn response)
            brigade 0 (set_hasTerminated false s))
    with (dispatchToMiddleware brigade (continueFn response) (continueFn response)
            (drop 0 brigade) 0 (set_hasTerminated false s)).
  rewrite (dispatchToMiddleware_inside _ _ _ 0 asyncDropper) by reflexivity.
  cbn [asyncDropper invoke newPromise exec continueFns]. unfold dispatchNext.
  rewrite (forwarders_pass_from brigade _ _ k 1).
  - rewrite dispatchToMiddleware_past_end;
      [|unfold brigade; simpl; rewrite length_replicate; lia|reflexivity].
    rewrite continueFn_call by exact Hr. rewrite !checkResponse_promise.
    cbn [orThrow exec finishAsync resolvePromise fst snd].
    unfold settle.
    cbn [promises enteredFrom set_events set_promises record set_hasTerminated
           microtasks receivedCalls events hasTerminated].
    rewrite <- (app_assoc (promises s)). cbn [app].
    rewrite list_lookup_middle by reflexivity.
    rewrite insert_app_r_alt, Nat.sub_diag by lia.
    cbn [set_microtasks set_promises map hasTerminated receivedCalls events
           microtasks promises settled].
    rewrite app_nil_r, <- !app_assoc. reflexivity.
  - intros j Hj. unfold brigade. destruct j as [|j]; [lia|]. simpl.
    apply lookup_replicate_2. lia.
  - reflexivity.
Qed.

(** [callMiddleware] on a middleware whose promise is settled when it
    returns, no job being queued: the callback is the one job. *)
Lemma callMiddleware_settled
    (call : ContinueMiddleware -> ContinueMiddleware -> state -> result * state)
    request response s p s' r :
  typeOf request = "object" ->
  request <> VNull ->
  response = VUndefined \/ (typeOf response = "object" /\ response <> VNull) ->
  call (continueFn response) (continueFn response) s = (Normal (VPromise p), s') ->
  promises s' !! p = Some (settled r) ->
  microtasks s' = [] ->
  callMiddleware (Callable call) request response s
  = (Normal (VPromise (length (promises s'))),
     mkState (hasTerminated s') (receivedCalls s') (promises s' ++ [Pending []])
       [(ThenCheckResult response (length (promises s')), r)] (events s')).
Proof.
  intros Hobj Hnull Hvalid Hm Hp Hq.
  rewrite (callMiddleware_registers _ request response s p s' Hobj Hnull Hvalid Hm).
  f_equal.
  unfold subscribe. cbn [promises set_promises].
  rewrite lookup_app_l by (eapply lookup_lt_Some, Hp). rewrite Hp.
  destruct r; unfold enqueue; simpl; rewrite Hq; reflexivity.
Qed.

(** X10. [callMiddleware] with a [request] and a [response] object finds out
    a middleware that calls next without returning what it returns: the
    first middleware of the brigade being such a one (and the others passing
    on what next returns), the promise of [callMiddleware] is rejected with
    the error about an unexpected response value. *)
Theorem callMiddleware_detects_dropped_result k request response s fuel :
  typeOf request = "object" ->
  request <> VNull ->
  typeOf response = "object" ->
  response <> VNull ->
  hasCallableThen response = false ->
  microtasks s = [] ->
  (2 <= fuel)%nat ->
  exists s1,
    callMiddleware (Callable (composedMiddleware (asyncDropper :: replicate k forwarder)))
      request response s
    = (Normal (VPromise (length (promises s) + 2)), s1)
    /\ promises (runMicrotasks (asyncDropper :: replicate k forwarder)
                   (continueFn response) (continueFn response) fuel s1)
         !! (length (promises s) + 2)%nat
       = Some (Rejected (VError Error
           ("Middleware brigade terminated with an unexpected response value indicating " +:+
            "that a middleware function failed to call next or terminate, or failed to " +:+
            "incorporate the resulting value into its own return value"))).
Proof.
  intros Hobj Hnull Ht Hn Hr Hq Hfuel.
  assert (Hvalid : response = VUndefined \/ (typeOf response = "object" /\ response <> VNull))
    by auto.
  assert (Hu : response <> VUndefined) by (intros ->; discriminate Ht).
  rewrite (callMiddleware_settled _ request response s _ _ (Normal VUndefined)
             Hobj Hnull Hvalid
             (composed_dropper_continueFn k response s Hr)).
  - cbn [promises]. rewrite length_app. cbn [length].
    eexists. split; [reflexivity|].
    match goal with
    | |- promises (runMicrotasks ?b ?n ?t fuel ?s0) !! ?q = _ =>
        destruct (then_job_result b n t response VUndefined q s0 fuel)
          as (Hbad & _ & _)
    end; auto.
    cbn [promises]. rewrite lookup_app_r by (rewrite length_app; simpl; lia).
    rewrite length_app. cbn [length].
    rewrite Nat.sub_diag. reflexivity.
  - cbn [promises]. apply list_lookup_middle. reflexivity.
  - exact Hq.
Qed.

Lemma callMiddleware_detects_dropped_result_witness :
  exists s1,
    callMiddleware (Callable (composedMiddleware (asyncDropper :: replicate 1 forwarder)))
      (VObject 0) (VObject 5) initial
    = (Normal (VPromise 2), s1)
    /\ promises (runMicrotasks (asyncDropper :: replicate 1 forwarder)
                   (continueFn (VObject 5)) (continueFn (VObject 5)) 2 s1) !! 2%nat
       = Some (Rejected (VError Error unexpectedResponse)).
Proof.
  apply (callMiddleware_detects_dropped_result 1 (VObject 0) (VObject 5) initial 2);
    solve [reflexivity | discriminate | lia].
Defined.

(** X11. [callMiddleware], given a [request] object and no [response] or one
    that is an object, passes on the error of a middleware as it is: a
    middleware throwing [e] (the middleware before it passing on what next
    returns), the promise of [callMiddleware] is rejected with [e] itself,
    and neither [next] nor [terminate] was called. *)
Theorem callMiddleware_passes_errors_on brigade k name e request response s fuel :
  typeOf request = "object" ->
  request <> VNull ->
  response = VUndefined \/ (typeOf response = "object" /\ response <> VNull) ->
  (forall j, (j < k)%nat -> brigade !! j = Some forwarder) ->
  brigade !! k = Some (throws name e) ->
  microtasks s = [] ->
  (1 <= fuel)%nat ->
  exists s1,
    callMiddleware (Callable (composedMiddleware brigade)) request response s
    = (Normal (VPromise (S (length (promises s)))), s1)
    /\ let s2 := runMicrotasks brigade (continueFn response) (continueFn response)
                   fuel s1 in
       promises s2 !! S (length (promises s)) = Some (Rejected e)
       /\ events s2 = events s ++ map Invoked (seq 0 (S k)).
Proof.
  intros Hobj Hnull Hvalid Hfw Hm Hq Hfuel.
  assert (Hc : composedMiddleware brigade (continueFn response) (continueFn response) s
               = rejectedIn e (enteredFrom 0 (S k) (set_hasTerminated false s))).
  { rewrite (composed_at_position _ _ _ k s Hfw _ Hm). reflexivity. }
  rewrite (callMiddleware_settled _ request response s _ _ (Thrown e) Hobj Hnull Hvalid Hc).
  - cbn [promises enteredFrom set_events set_hasTerminated set_promises hasTerminated
           receivedCalls events].
    rewrite length_app, Nat.add_1_r. cbn [length].
    eexists. split; [reflexivity|].
    destruct fuel as [|fuel]; [lia|].
    rewrite (runMicrotasks_step _ _ _ _ _ []) by reflexivity.
    cbn [runTask]. unfold settle.
    cbn [promises set_microtasks microtasks hasTerminated receivedCalls events].
    rewrite lookup_app_r by (rewrite length_app; simpl; lia).
    rewrite length_app. cbn [length]. rewrite Nat.add_1_r, Nat.sub_diag.
    cbn [lookup list_lookup].
    rewrite runMicrotasks_idle by reflexivity.
    cbv zeta. cbn [promises set_microtasks set_promises events settled].
    split; [|reflexivity].
    rewrite insert_app_r_alt by (rewrite length_app; simpl; lia).
    rewrite length_app. cbn [length]. rewrite Nat.add_1_r, Nat.sub_diag.
    rewrite lookup_app_r by (rewrite length_app; simpl; lia).
    rewrite length_app, Nat.add_1_r, Nat.sub_diag. reflexivity.
  - cbn [promises rejectedIn snd set_promises]. apply list_lookup_middle. reflexivity.
  - exact Hq.
Qed.

Lemma callMiddleware_passes_errors_on_witness :
  exists s1,
    callMiddleware (Callable (composedMiddleware [forwarder; thrower])) (VObject 0)
      (VObject 5) initial
    = (Normal (VPromise 1), s1)
    /\ let s2 := runMicrotasks [forwarder; thrower] (continueFn (VObject 5))
                   (continueFn (VObject 5)) 1 s1 in
       promises s2 !! 1%nat = Some (Rejected (VError Error "test"))
       /\ events s2 = [Invoked 0; Invoked 1].
Proof.
  apply (callMiddleware_passes_errors_on [forwarder; thrower] 1 "" (VError Error "test")
           (VObject 0) (VObject 5) initial 1).
  - reflexivity.
  - discriminate.
  - right. split; [reflexivity|discriminate].
  - intros [|j] Hj; [reflexivity|lia].
  - reflexivity.
  - reflexivity.
  - lia.
Defined.

(** ** Brigades of recorders under [callMiddleware], and called again *)

Lemma chain_length v rs i q marks : length (chain v rs i q marks) = S (length marks).
Proof.
  revert rs i q. induction marks as [|[before after] marks IH]; intros rs i q; simpl;
    [reflexivity|]. rewrite IH. reflexivity.
Qed.

Section NestingUnder.

Variable brigade : Brigade.
Variables next terminate : ContinueMiddleware.
Variable v : value.

(** [next] is a function that returns a new promise fulfilled with [v]. *)
Hypothesis next_resolves : forall b s,
  callContinue next terminate Next (set_hasTerminated b s)
  = (Normal (VPromise (length (promises s))),
     mkState b (receivedCalls s) (promises s ++ [Fulfilled v]) (microtasks s)
       (events s ++ [Called Next])).

Hypothesis v_plain : hasCallableThen v = false.

Lemma subscribe_chain_tail rc i marks f rcalls ps tl ts es :
  subscribe (length ps) rc
    (mkState f rcalls (ps ++ chain v [] i (length ps) marks ++ tl)
       (ts ++ parked v [] i (length ps) marks) es)
  = mkState f rcalls (ps ++ chain v [rc] i (length ps) marks ++ tl)
      (ts ++ parked v [rc] i (length ps) marks) es.
Proof.
  unfold subscribe. destruct marks as [|[before after] marks]; simpl.
  - rewrite list_lookup_middle by reflexivity. unfold enqueue. simpl.
    rewrite app_nil_r. reflexivity.
  - rewrite list_lookup_middle by reflexivity. unfold set_promises. simpl.
    rewrite insert_app_r_alt, Nat.sub_diag by lia. reflexivity.
Qed.

Lemma dispatch_recorders_under marks : forall i s,
  hasTerminated s = false ->
  dispatchToMiddleware brigade next terminate (recorders marks) i s
  = (Normal (VPromise (length (promises s))),
     mkState true
       (receivedCalls s ++ map fst marks)
       (promises s ++ chain v [] i (length (promises s)) marks)
       (microtasks s ++ parked v [] i (length (promises s)) marks)
       (events s ++ map Invoked (seq i (length marks)) ++ [Called Next])).
Proof.
  induction marks as [|[before after] marks IH]; intros i s Hf.
  - simpl. rewrite Hf, next_resolves. simpl. rewrite !app_nil_r. reflexivity.
  - cbn [recorders map dispatchToMiddleware fst snd]. rewrite Hf.
    fold (recorders marks).
    unfold recorder at 1. cbn [invoke newPromise exec].
    rewrite IH by exact Hf.
    cbn [orThrow exec finishAsync awaitValue promises length receivedCalls microtasks
           events hasTerminated push record set_promises set_receivedCalls set_events].
    rewrite <- (app_nil_r (chain v [] (S i) (length (promises s ++ [Pending []])) marks)).
    rewrite subscribe_chain_tail. rewrite app_nil_r.
    rewrite length_app. cbn [length]. rewrite Nat.add_1_r.
    rewrite checkResponse_promise.
    rewrite <- !app_assoc. reflexivity.
Qed.

Lemma run_chain_tail marks : forall rs i ps tl f rcalls es,
  runMicrotasks brigade next terminate (length marks)
    (mkState f rcalls (ps ++ chain v rs i (length ps) marks ++ tl)
       (parked v rs i (length ps) marks) es)
  = mkState f (rcalls ++ rev (map snd marks))
      (ps ++ replicate (S (length marks)) (Fulfilled v) ++ tl)
      (map (fun rc => (rc, Normal v)) rs) es.
Proof.
  induction marks as [|[before after] marks IH]; intros rs i ps tl f rcalls es.
  - simpl. rewrite app_nil_r. reflexivity.
  - replace (length ((before, after) :: marks)) with (length marks + 1)%nat
      by (simpl; lia).
    rewrite runMicrotasks_add.
    cbn [chain parked].
    replace (ps ++ (Pending rs
               :: chain v [ResumeMiddleware i (length ps) (afterAwait after)]
                    (S i) (S (length ps)) marks) ++ tl)
      with ((ps ++ [Pending rs])
              ++ chain v [ResumeMiddleware i (length ps) (afterAwait after)]
                   (S i) (length (ps ++ [Pending rs])) marks ++ tl)
      by (rewrite length_app, Nat.add_1_r, <- app_assoc; reflexivity).
    replace (S (length ps)) with (length (ps ++ [Pending rs]))
      by (rewrite length_app, Nat.add_1_r; reflexivity).
    rewrite IH.
    cbn [runMicrotasks map microtasks runTask afterAwait orThrow exec finishAsync
           set_microtasks push set_receivedCalls hasTerminated receivedCalls
           promises events].
    rewrite resolvePromise_plain by exact v_plain.
    unfold settle. rewrite <- (app_assoc ps).
    cbn [promises microtasks set_promises set_microtasks push set_receivedCalls
           hasTerminated receivedCalls events settled app].
    rewrite list_lookup_middle by reflexivity.
    rewrite insert_app_r_alt, Nat.sub_diag by lia.
    replace (S (length marks + 1)) with (S (S (length marks))) by lia.
    unfold set_microtasks, set_promises, push, set_receivedCalls. simpl.
    rewrite <- app_assoc. reflexivity.
Qed.

End NestingUnder.

(** The job of the callback of [callMiddleware] on the very [response]
    object: it fulfils the promise and leaves no job. *)
Lemma then_job_fulfils brigade next terminate response q s fuel :
  promises s !! q = Some (Pending []) ->
  microtasks s = [(ThenCheckResult response q, Normal response)] ->
  response <> VUndefined ->
  hasCallableThen response = false ->
  (1 <= fuel)%nat ->
  runMicrotasks brigade next terminate fuel s
  = set_microtasks [] (set_promises (<[q := Fulfilled response]> (promises s)) s).
Proof.
  intros Hq Hts Hu Hr Hfuel. destruct fuel as [|fuel]; [lia|].
  rewrite (runMicrotasks_step _ _ _ _ _ _ _ Hts). simpl runTask.
  assert (Hcheck : checkResult response response (set_microtasks [] s)
                   = (response, set_microtasks [] s)).
  { unfold checkResult.
    rewrite (proj2 (strictNe_false response response) eq_refl), andb_false_r.
    destruct (strictEq response VUndefined) eqn:E; [|reflexivity].
    apply strictEq_true in E. contradiction. }
  rewrite Hcheck, resolvePromise_plain by exact Hr.
  unfold settle. simpl. rewrite Hq. simpl.
  apply runMicrotasks_idle. reflexivity.
Qed.

(** X12. [callMiddleware] with a [request] and a [response] object on a
    composed brigade of any number of middleware that each push a mark,
    await next, push a second mark and return the result: the promise of
    [callMiddleware] is fulfilled with that very [response] object, the
    first marks were pushed in the order of the brigade and the second ones
    in the reverse order, and no job is left. *)
Theorem callMiddleware_recorders marks request response s fuel :
  typeOf request = "object" ->
  request <> VNull ->
  typeOf response = "object" ->
  response <> VNull ->
  hasCallableThen response = false ->
  microtasks s = [] ->
  (length marks + 1 <= fuel)%nat ->
  exists s1,
    callMiddleware (Callable (composedMiddleware (recorders marks))) request response s
    = (Normal (VPromise (length (promises s) + S (length marks))), s1)
    /\ let s2 := runMicrotasks (recorders marks) (continueFn response)
                   (continueFn response) fuel s1 in
       promises s2 !! (length (promises s) + S (length marks))%nat
       = Some (Fulfilled response)
       /\ receivedCalls s2 = receivedCalls s ++ map fst marks ++ rev (map snd marks)
       /\ microtasks s2 = [].
Proof.
  intros Hobj Hnull Ht Hn Hr Hq Hfuel.
  assert (Hvalid : response = VUndefined \/ (typeOf response = "object" /\ response <> VNull))
    by auto.
  assert (Hu : response <> VUndefined) by (intros ->; discriminate Ht).
  assert (Hnext : forall b s0,
            callContinue (continueFn response) (continueFn response) Next
              (set_hasTerminated b s0)
            = (Normal (VPromise (length (promises s0))),
               mkState b (receivedCalls s0) (promises s0 ++ [Fulfilled response])
                 (microtasks s0) (events s0 ++ [Called Next])))
    by (intros b s0; apply continueFn_call, Hr).
  pose proof (dispatch_recorders_under (recorders marks) (continueFn response)
                (continueFn response) response Hnext marks 0
                (set_hasTerminated false s) eq_refl) as Hc.
  rewrite (callMiddleware_registers _ request response s _ _ Hobj Hnull Hvalid Hc).
  cbn [promises set_hasTerminated microtasks receivedCalls events set_promises].
  rewrite length_app, chain_length, Hq.
  eexists. split; [reflexivity|].
  rewrite <- (app_assoc (promises s)).
  unfold set_promises. cbn [hasTerminated receivedCalls microtasks events].
  rewrite (subscribe_chain_tail response). cbn [app].
  replace fuel with (length marks + (fuel - length marks))%nat by lia.
  rewrite runMicrotasks_add, (run_chain_tail _ _ _ response Hr).
  cbn [map].
  rewrite (then_job_fulfils _ _ _ response (length (promises s) + S (length marks))%nat);
    auto; try (simpl; lia).
  - cbv zeta. cbn [promises receivedCalls microtasks set_microtasks set_promises].
    split; [|split; [rewrite <- app_assoc|]; reflexivity].
    apply list_lookup_insert_eq.
    rewrite !length_app, length_replicate. simpl. lia.
  - cbn [promises]. rewrite lookup_app_r by lia.
    rewrite lookup_app_r by (rewrite length_replicate; lia).
    rewrite length_replicate.
    replace (length (promises s) + S (length marks) - length (promises s)
             - S (length marks))%nat with 0%nat by lia.
    reflexivity.
Qed.

Lemma callMiddleware_recorders_witness :
  exists s1,
    callMiddleware
      (Callable
         (composedMiddleware (recorders [(VNumber 1, VNumber 4); (VNumber 2, VNumber 3)])))
      (VObject 0) (VObject 9) initial
    = (Normal (VPromise 3), s1)
    /\ let s2 := runMicrotasks (recorders [(VNumber 1, VNumber 4); (VNumber 2, VNumber 3)])
                   (continueFn (VObject 9)) (continueFn (VObject 9)) 3 s1 in
       promises s2 !! 3%nat = Some (Fulfilled (VObject 9))
       /\ receivedCalls s2 = [VNumber 1; VNumber 2; VNumber 3; VNumber 4]
       /\ microtasks s2 = [].
Proof.
  apply (callMiddleware_recorders [(VNumber 1, VNumber 4); (VNumber 2, VNumber 3)]
           (VObject 0) (VObject 9) initial 3);
    solve [reflexivity | discriminate | simpl; lia].
Defined.

(** X13. A composed brigade can be called again once an invocation is over:
    [hasTerminated] is set anew by each call, so that a brigade of
    middleware that each push a mark, await next and push a second mark
    does in the second invocation what it did in the first. *)
Theorem composed_brigade_can_be_called_again marks v terminate s fuel :
  hasCallableThen v = false ->
  microtasks s = [] ->
  (length marks <= fuel)%nat ->
  let call s0 :=
    runMicrotasks (recorders marks) (resolving v) terminate fuel
      (snd (composedMiddleware (recorders marks) (resolving v) terminate s0)) in
  hasTerminated (call s) = true
  /\ receivedCalls (call (call s))
     = (receivedCalls s ++ map fst marks ++ rev (map snd marks))
       ++ map fst marks ++ rev (map snd marks)
  /\ fst (composedMiddleware (recorders marks) (resolving v) terminate (call s))
     = Normal (VPromise (length (promises (call s))))
  /\ promises (call (call s)) !! length (promises (call s)) = Some (Fulfilled v).
Proof.
  intros Hv Hq Hfuel call.
  destruct (recorders_run marks v terminate s fuel Hv Hq Hfuel) as (s1 & Hs1 & Hrun).
  assert (Hcall : call s
                  = mkState true
                      (receivedCalls s ++ map fst marks ++ rev (map snd marks))
                      (promises s ++ replicate (S (length marks)) (Fulfilled v)) []
                      (events s ++ map Invoked (seq 0 (length marks)) ++ [Called Next])).
  { unfold call. rewrite Hs1. exact Hrun. }
  destruct (recorders_run marks v terminate (call s) fuel Hv) as (s2 & Hs2 & Hrun2);
    [rewrite Hcall; reflexivity|exact Hfuel|].
  assert (Hcall2 : call (call s)
                   = runMicrotasks (recorders marks) (resolving v) terminate fuel s2).
  { unfold call at 1. rewrite Hs2. reflexivity. }
  split; [rewrite Hcall; reflexivity|].
  split; [rewrite Hcall2, Hrun2, Hcall; reflexivity|].
  split; [rewrite Hs2; reflexivity|].
  rewrite Hcall2, Hrun2. cbn [promises]. apply list_lookup_middle. reflexivity.
Qed.

Lemma composed_brigade_can_be_called_again_witness :
  let call s0 :=
    runMicrotasks deepBrigade (resolving (VObject 0)) (resolving (VObject 0)) 3
      (snd (composedMiddleware deepBrigade (resolving (VObject 0)) (resolving (VObject 0))
              s0)) in
  receivedCalls (call (call initial))
  = [VNumber 1; VNumber 2; VNumber 3; VNumber 4; VNumber 5; VNumber 6;
     VNumber 1; VNumber 2; VNumber 3; VNumber 4; VNumber 5; VNumber 6].
Proof.
  intros call.
  exact (proj1 (proj2 (composed_brigade_can_be_called_again
                         [(VNumber 1, VNumber 6); (VNumber 2, VNumber 5);
                          (VNumber 3, VNumber 4)]
                         (VObject 0) (resolving (VObject 0)) initial 3
                         eq_refl eq_refl ltac:(simpl; lia)))).
Defined.



(** X15. A middleware that answers with a promise of its own, fulfilled
    with [x], and calls neither continue function (the middleware before it
    passing on what next returns): the brigade has not terminated, and the
    promise of [callMiddleware] (given a [request] object) is rejected with
    the error about an unexpected response value when a [response] other
    than [x] was given, and fulfilled with [x] when none was given and [x]
    is not undefined. *)
Theorem callMiddleware_answering_middleware brigade k name x request response s fuel :
  typeOf request = "object" ->
  request <> VNull ->
  response = VUndefined \/ (typeOf response = "object" /\ response <> VNull) ->
  hasCallableThen x = false ->
  (forall j, (j < k)%nat -> brigade !! j = Some forwarder) ->
  brigade !! k = Some (answering name x) ->
  microtasks s = [] ->
  (2 <= fuel)%nat ->
  exists s1,
    callMiddleware (Callable (composedMiddleware brigade)) request response s
    = (Normal (VPromise (S (length (promises s)))), s1)
    /\ ctrl s1 = (false, events s ++ map Invoked (seq 0 (S k)))
    /\ let s2 := runMicrotasks brigade (continueFn response) (continueFn response)
                   fuel s1 in
       (response <> VUndefined -> x <> response ->
        promises s2 !! S (length (promises s))
        = Some (Rejected (VError Error unexpectedResponse)))
       /\ (response = VUndefined -> x <> VUndefined ->
           promises s2 !! S (length (promises s)) = Some (Fulfilled x)).
Proof.
  intros Hobj Hnull Hvalid Hx Hfw Hm Hq Hfuel.
  assert (Hc : composedMiddleware brigade (continueFn response) (continueFn response) s
               = (Normal (VPromise (length (promises s))),
                  mkState false (receivedCalls s) (promises s ++ [Fulfilled x])
                    (microtasks s) (events s ++ map Invoked (seq 0 (S k))))).
  { rewrite (composed_at_position _ _ _ k s Hfw _ Hm).
    cbn [answering invoke exec]. rewrite promiseResolve_plain by exact Hx.
    reflexivity. }
  rewrite (callMiddleware_settled _ request response s _ _ (Normal x) Hobj Hnull Hvalid Hc).
  - cbn [promises hasTerminated receivedCalls events].
    rewrite length_app, Nat.add_1_r. cbn [length].
    eexists. split; [reflexivity|]. split; [reflexivity|].
    cbv zeta.
    match goal with
    | |- (_ -> _ -> promises (runMicrotasks ?b ?n ?t fuel ?s0) !! _ = _) /\ _ =>
        destruct (then_job_result b n t response x (S (length (promises s))) s0 fuel)
          as (Hbad & _ & Hok)
    end; auto.
    cbn [promises]. rewrite lookup_app_r by (rewrite length_app; simpl; lia).
    rewrite length_app, Nat.add_1_r, Nat.sub_diag. reflexivity.
  - cbn [promises]. apply list_lookup_middle. reflexivity.
  - exact Hq.
Qed.

Lemma callMiddleware_answering_middleware_witness :
  exists s1,
    callMiddleware (Callable (composedMiddleware [forwarder; answering "own" (VNumber 7)]))
      (VObject 0) VUndefined initial
    = (Normal (VPromise 1), s1)
    /\ ctrl s1 = (false, [Invoked 0; Invoked 1])
    /\ promises (runMicrotasks [forwarder; answering "own" (VNumber 7)]
                   (continueFn VUndefined) (continueFn VUndefined) 2 s1) !! 1%nat
       = Some (Fulfilled (VNumber 7)).
Proof.
  destruct (callMiddleware_answering_middleware [forwarder; answering "own" (VNumber 7)]
              1 "own" (VNumber 7) (VObject 0) VUndefined initial 2)
    as (s1 & H1 & H2 & _ & H3);
    try solve [left; reflexivity | reflexivity | discriminate | lia].
  - intros [|j] Hj; [reflexivity|lia].
  - exists s1. split; [exact H1|]. split; [exact H2|].
    apply H3; [reflexivity|discriminate].
Defined.

(** ** The earlier revision *)

Lemma legacy_dispatch_inside middleware next skipNext i m s :
  middleware !! i = Some m ->
  hasTerminated s = false ->
  LegacyCompose.dispatch middleware next skipNext (drop i middleware) i s
  = LegacyCompose.checkResult middleware i
      (invoke (ResumeMiddleware i) (LegacyCompose.continueFns middleware next skipNext i) m
         (record (Invoked i) s)).
Proof.
  intros Hm Hf. rewrite (drop_S _ _ _ Hm). simpl. rewrite Hf. reflexivity.
Qed.

Lemma legacy_dispatch_past_end middleware next skipNext i s :
  (length middleware <= i)%nat ->
  hasTerminated s = false ->
  LegacyCompose.dispatch middleware next skipNext (drop i middleware) i s
  = LegacyCompose.checkResult middleware i
      (callContinue next skipNext Next (set_hasTerminated true s)).
Proof.
  intros Hi Hf. rewrite drop_ge by exact Hi. simpl. rewrite Hf. reflexivity.
Qed.

(** X16. In the earlier revision of [compose] the error for a value that is
    not a promise always carries a position: the position and name of the
    middleware that returned it, or, when the brigade's own [next] returned
    it past the end, the position after the last middleware with the fixed
    name ['XYZZY-UPDATE-ME']. *)
Theorem legacy_non_promise_response middleware next skipNext :
  (forall (i : nat) m s v s1,
     middleware !! i = Some m ->
     hasTerminated s = false ->
     invoke (ResumeMiddleware i) (LegacyCompose.continueFns middleware next skipNext i) m
       (record (Invoked i) s) = (Normal v, s1) ->
     isPromiseLike v = false ->
     LegacyCompose.dispatch middleware next skipNext (drop i middleware) i s
     = rejectedIn
         (VError TypeError
            ("Composed middleware #" +:+ pretty (Z.of_nat i) +:+ " '" +:+ fn_name m +:+
             "' has returned a value of type '" +:+ typeOf v +:+
             "' when a Promise was expected")) s1)
  /\ (forall (i : nat) s v s1,
        (length middleware <= i)%nat ->
        hasTerminated s = false ->
        callContinue next skipNext Next (set_hasTerminated true s) = (Normal v, s1) ->
        isPromiseLike v = false ->
        LegacyCompose.dispatch middleware next skipNext (drop i middleware) i s
        = rejectedIn
            (VError TypeError
               ("Composed middleware #" +:+ pretty (Z.of_nat i) +:+
                " 'XYZZY-UPDATE-ME' has returned a value of type '" +:+ typeOf v +:+
                "' when a Promise was expected")) s1).
Proof.
  split.
  - intros i m s v s1 Hm Hf Hv Hnp.
    rewrite (legacy_dispatch_inside _ _ _ _ _ _ Hm Hf), Hv. simpl.
    rewrite Hnp, (legacy_locatedError_inside _ _ _ _ Hm). reflexivity.
  - intros i s v s1 Hi Hf Hv Hnp.
    rewrite (legacy_dispatch_past_end _ _ _ _ _ Hi Hf), Hv. simpl.
    rewrite Hnp, legacy_locatedError_outside by lia. reflexivity.
Qed.

Lemma legacy_non_promise_response_witness :
  LegacyCompose.composedMiddleware [] (SyncFn "" (Return (VNumber 0))) (resolving VNull)
    initial
  = (Normal (VPromise 0),
     mkState true []
       [Rejected (VError TypeError
          "Composed middleware #0 'XYZZY-UPDATE-ME' has returned a value of type 'number' when a Promise was expected")]
       [] [Called Next]).
Proof.
  apply (proj2 (legacy_non_promise_response [] (SyncFn "" (Return (VNumber 0)))
                  (resolving VNull))
           0%nat initial (VNumber 0) (mkState true [] [] [] [Called Next]));
    solve [reflexivity | simpl; lia].
Defined.
